(** * dm-ddi: the delay-injection device-mapper target (src/dm-ddi.c)

    A shallow embedding of the engine of [dm-ddi.c]: the per-target context
    [delay_c], the list of delayed bios, the single coalescing timer, the
    sysfs stores of the two delays, and the device-mapper entry points
    [delay_map], [delay_presuspend] and [delay_resume]; then the sysfs show
    functions, [delay_status], [delay_iterate_devices], and the constructor
    and destructor with the resources they acquire and release.

    Conventions.
    - C integers are [Z] with the wrap-around of their type written out:
      [unsigned] is 32 bits, [unsigned long], [sector_t] and [size_t] are
      64 bits (an LP64 kernel).
    - [jiffies] is read from the environment; every function that reads it
      takes its current value as a first argument.
    - The bios handed to [generic_make_request] are returned as a list, in
      call order.
    - One target instance is modelled.  [delay_bio] stores [dc] itself in
      [delayed->context] before it links the entry on [dc->delayed_bios], so
      [delayed->context] in [flush_delayed_bios] is the [dc] being flushed and
      the field is not represented. *)

From Stdlib Require Import ZArith List Bool Lia String Ascii Permutation.
Import ListNotations.
Local Open Scope Z_scope.

(** ** Machine integers *)

(** [unsigned]: 32 bits. *)
Definition u32 (x : Z) : Z := x mod 2 ^ 32.

(** [int]: 32 bits, two's complement. *)
Definition s32 (x : Z) : Z := (x + 2 ^ 31) mod 2 ^ 32 - 2 ^ 31.

(** [unsigned long], [sector_t], [size_t]: 64 bits. *)
Definition u64 (x : Z) : Z := x mod 2 ^ 64.

(** [long], [ssize_t]: 64 bits, two's complement. *)
Definition s64 (x : Z) : Z := (x + 2 ^ 63) mod 2 ^ 64 - 2 ^ 63.

(** [time_after_eq(a, b)] of linux/jiffies.h: [(long)((a) - (b)) >= 0]. *)
Definition time_after_eq (a b : Z) : bool := 0 <=? s64 (u64 (a - b)).

(** [min(x, y)] on [unsigned long]. *)
Definition min (x y : Z) : Z := if x <? y then x else y.

(** ** Kernel objects *)

(** [struct dm_dev]: the name and the block device behind it. *)
Record dm_dev := { name : string; bdev : Z }.

(** The fields of [struct bio] that the target reads or writes. *)
Record bio := {
  bi_bdev : Z;
  bi_sector : Z;
  bi_size : Z;
  bi_rw : Z
}.

Definition READ : Z := 0.
Definition WRITE : Z := 1.

(** Modelled from the spec: the macro [bio_data_dir] of linux/bio.h is not
    part of the sources; it is the direction of the request, read or write,
    the low bit of [bi_rw]. *)
Definition bio_data_dir (b : bio) : Z := Z.land (bi_rw b) 1.

(** Modelled from the spec: the macro [bio_sectors] of linux/bio.h is not
    part of the sources; it is the number of 512-byte sectors the request
    carries, [bi_size >> 9]. *)
Definition bio_sectors (b : bio) : Z := Z.shiftr (bi_size b) 9.

Definition set_bi_bdev (b : bio) (d : Z) : bio :=
  {| bi_bdev := d; bi_sector := bi_sector b; bi_size := bi_size b;
     bi_rw := bi_rw b |}.

Definition set_bi_sector (b : bio) (s : Z) : bio :=
  {| bi_bdev := bi_bdev b; bi_sector := s; bi_size := bi_size b;
     bi_rw := bi_rw b |}.

(** [struct timer_list]: whether the timer is pending and its [expires]. *)
Record timer_list := { pending : bool; timer_expires : Z }.

Definition timer_pending (t : timer_list) : bool := pending t.

Definition mod_timer (t : timer_list) (expires : Z) : timer_list :=
  {| pending := true; timer_expires := expires |}.

Definition del_timer_sync (t : timer_list) : timer_list :=
  {| pending := false; timer_expires := timer_expires t |}.

(** [struct dm_delay_info], the per-bio data: the bio it belongs to
    ([dm_bio_from_per_bio_data]) and its expiry. *)
Record dm_delay_info := { info_bio : bio; expires : Z }.

(** [struct delay_c].  [flush_work] tells whether the work item
    [flush_expired_bios] is queued on [kdelayd_wq]. *)
Record delay_c := {
  delay_timer : timer_list;
  flush_work : bool;
  delayed_bios : list dm_delay_info;
  may_delay : Z;
  dev_read : dm_dev;
  start_read : Z;
  read_delay : Z;
  reads : Z;
  dev_write : option dm_dev;
  start_write : Z;
  write_delay : Z;
  writes : Z
}.

Definition set_delay_timer (dc : delay_c) (t : timer_list) : delay_c :=
  {| delay_timer := t; flush_work := flush_work dc;
     delayed_bios := delayed_bios dc; may_delay := may_delay dc;
     dev_read := dev_read dc; start_read := start_read dc;
     read_delay := read_delay dc; reads := reads dc;
     dev_write := dev_write dc; start_write := start_write dc;
     write_delay := write_delay dc; writes := writes dc |}.

Definition set_flush_work (dc : delay_c) (w : bool) : delay_c :=
  {| delay_timer := delay_timer dc; flush_work := w;
     delayed_bios := delayed_bios dc; may_delay := may_delay dc;
     dev_read := dev_read dc; start_read := start_read dc;
     read_delay := read_delay dc; reads := reads dc;
     dev_write := dev_write dc; start_write := start_write dc;
     write_delay := write_delay dc; writes := writes dc |}.

Definition set_may_delay (dc : delay_c) (m : Z) : delay_c :=
  {| delay_timer := delay_timer dc; flush_work := flush_work dc;
     delayed_bios := delayed_bios dc; may_delay := m;
     dev_read := dev_read dc; start_read := start_read dc;
     read_delay := read_delay dc; reads := reads dc;
     dev_write := dev_write dc; start_write := start_write dc;
     write_delay := write_delay dc; writes := writes dc |}.

Definition set_read_delay (dc : delay_c) (d : Z) : delay_c :=
  {| delay_timer := delay_timer dc; flush_work := flush_work dc;
     delayed_bios := delayed_bios dc; may_delay := may_delay dc;
     dev_read := dev_read dc; start_read := start_read dc;
     read_delay := d; reads := reads dc;
     dev_write := dev_write dc; start_write := start_write dc;
     write_delay := write_delay dc; writes := writes dc |}.

Definition set_write_delay (dc : delay_c) (d : Z) : delay_c :=
  {| delay_timer := delay_timer dc; flush_work := flush_work dc;
     delayed_bios := delayed_bios dc; may_delay := may_delay dc;
     dev_read := dev_read dc; start_read := start_read dc;
     read_delay := read_delay dc; reads := reads dc;
     dev_write := dev_write dc; start_write := start_write dc;
     write_delay := d; writes := writes dc |}.

(** The queue and its two counters change together, under
    [delayed_bios_lock]. *)
Definition set_queue (dc : delay_c) (l : list dm_delay_info) (r w : Z)
  : delay_c :=
  {| delay_timer := delay_timer dc; flush_work := flush_work dc;
     delayed_bios := l; may_delay := may_delay dc;
     dev_read := dev_read dc; start_read := start_read dc;
     read_delay := read_delay dc; reads := r;
     dev_write := dev_write dc; start_write := start_write dc;
     write_delay := write_delay dc; writes := w |}.

(** [struct dm_target]: the first sector of the target in the table and its
    private context. *)
Record dm_target := { ti_begin : Z; ti_private : delay_c }.

Definition set_private (ti : dm_target) (dc : delay_c) : dm_target :=
  {| ti_begin := ti_begin ti; ti_private := dc |}.

(** Modelled from the spec: the macro [dm_target_offset] of
    linux/device-mapper.h is not part of the sources; it is the request's
    logical offset within the mapping, the bio's sector minus the first
    sector of the target, in [sector_t]. *)
Definition dm_target_offset (ti : dm_target) (sector : Z) : Z :=
  u64 (sector - ti_begin ti).

(** Return values of the [map] method. *)
Inductive mapio := DM_MAPIO_SUBMITTED | DM_MAPIO_REMAPPED.

(** Which delay a [unsigned *delay] argument points to. *)
Inductive delay_ptr := read_delay_ptr | write_delay_ptr.

Definition load_delay (dc : delay_c) (p : delay_ptr) : Z :=
  match p with
  | read_delay_ptr => read_delay dc
  | write_delay_ptr => write_delay dc
  end.

Definition store_ptr (dc : delay_c) (p : delay_ptr) (v : Z) : delay_c :=
  match p with
  | read_delay_ptr => set_read_delay dc v
  | write_delay_ptr => set_write_delay dc v
  end.

(** ** A decimal [%d] conversion and a 1000 Hz clock

    Instances of the two library functions the target calls, used to run the
    model on concrete inputs. *)

Definition isdigit (c : ascii) : bool :=
  let n := Z.of_nat (nat_of_ascii c) in (48 <=? n) && (n <=? 57).

Definition isspace (c : ascii) : bool :=
  let n := Z.of_nat (nat_of_ascii c) in
  (n =? 32) || ((9 <=? n) && (n <=? 13)).

Fixpoint skip_spaces (s : string) : string :=
  match s with
  | String c r => if isspace c then skip_spaces r else s
  | EmptyString => s
  end.

Fixpoint strtoul (s : string) (acc : Z) : Z :=
  match s with
  | String c r =>
      if isdigit c
      then strtoul r (acc * 10 + (Z.of_nat (nat_of_ascii c) - 48))
      else acc
  | EmptyString => acc
  end.

(** [sscanf(buf, "%d", &x)]: [Some v] when the conversion stores [v] in [x],
    [None] when the input does not start (after white space) with an
    optionally negated decimal number, and [x] is left as it was. *)
Definition sscanf_int (buf : string) : option Z :=
  match skip_spaces buf with
  | String "-" r =>
      match r with
      | String c _ => if isdigit c then Some (s32 (- strtoul r 0)) else None
      | EmptyString => None
      end
  | String c r => if isdigit c then Some (s32 (strtoul (String c r) 0)) else None
  | EmptyString => None
  end.

(** [msecs_to_jiffies] for [HZ = 1000]: one jiffy per millisecond, and
    [MAX_JIFFY_OFFSET], [(LONG_MAX >> 1) - 1], for an argument that is
    negative as an [int]. *)
Definition msecs_to_jiffies_hz1000 (m : Z) : Z :=
  if s32 m <? 0 then 2 ^ 62 - 2 else u32 m.

(** ** The target *)

Section Target.

(** [msecs_to_jiffies] depends on the kernel's [HZ]. *)
Variable msecs_to_jiffies : Z -> Z.

(** The [%d] conversion of the kernel's [sscanf]; [None] when nothing is
    converted. *)
Variable sscanf_d : string -> option Z.

(** [queue_timeout], lines 160-168. *)
Definition queue_timeout (dc : delay_c) (expires : Z) : delay_c :=
  if negb (timer_pending (delay_timer dc))
     || (expires <? timer_expires (delay_timer dc))
  then set_delay_timer dc (mod_timer (delay_timer dc) expires)
  else dc.

(** [store_delay], lines 70-91.  [uninit] is the content of the local
    [new_delay] before [sscanf] runs: the variable has no initialiser and
    keeps that content when the conversion fails.  The result is the new
    context and the returned [ssize_t]. *)
Definition store_delay (jiffies uninit : Z) (dc : delay_c) (delay : delay_ptr)
    (buf : string) (count : Z) : delay_c * Z :=
  let new_delay :=
    match sscanf_d buf with
    | Some v => u32 v
    | None => u32 uninit
    end in
  if new_delay <? 0 then (dc, s64 count)
  else
    let dc := store_ptr dc delay new_delay in
    let expires := u64 (jiffies + msecs_to_jiffies new_delay) in
    (queue_timeout dc expires, s64 count).

(** [read_delay_store], lines 99-104. *)
Definition read_delay_store (jiffies uninit : Z) (dc : delay_c)
    (buf : string) (count : Z) : delay_c * Z :=
  store_delay jiffies uninit dc read_delay_ptr buf count.

(** [write_delay_store], lines 112-121. *)
Definition write_delay_store (jiffies uninit : Z) (dc : delay_c)
    (buf : string) (count : Z) : delay_c * Z :=
  match dev_write dc with
  | None => (dc, s64 count)
  | Some _ => store_delay jiffies uninit dc write_delay_ptr buf count
  end.

(** [handle_delayed_timer], lines 153-158: the timer has fired (it is no
    longer pending) and queues the work item. *)
Definition handle_delayed_timer (dc : delay_c) : delay_c :=
  set_flush_work
    (set_delay_timer dc (del_timer_sync (delay_timer dc))) true.

(** [flush_bios], lines 170-180: every bio of the chain goes to
    [generic_make_request], from the head on. *)
Fixpoint flush_bios (l : list bio) : list bio :=
  match l with
  | [] => []
  | b :: n => b :: flush_bios n
  end.

(** The locals of [flush_delayed_bios] and the fields of [dc] that its loop
    changes. *)
Record flush_state := {
  fs_list : list dm_delay_info;
  fs_reads : Z;
  fs_writes : Z;
  fs_flush_bios : list bio;
  fs_start_timer : Z;
  fs_next_expires : Z
}.

(** One iteration of the loop of [flush_delayed_bios], lines 191-207.
    [fs_list] collects the entries that [list_del] does not remove. *)
Definition flush_step (jiffies flush_all : Z) (delayed : dm_delay_info)
    (st : flush_state) : flush_state :=
  if negb (flush_all =? 0) || time_after_eq jiffies (expires delayed) then
    let b := info_bio delayed in
    {| fs_list := fs_list st;
       fs_reads :=
         if bio_data_dir b =? WRITE then fs_reads st
         else u32 (fs_reads st - 1);
       fs_writes :=
         if bio_data_dir b =? WRITE then u32 (fs_writes st - 1)
         else fs_writes st;
       fs_flush_bios := fs_flush_bios st ++ [b];
       fs_start_timer := fs_start_timer st;
       fs_next_expires := fs_next_expires st |}
  else
    {| fs_list := fs_list st ++ [delayed];
       fs_reads := fs_reads st;
       fs_writes := fs_writes st;
       fs_flush_bios := fs_flush_bios st;
       fs_start_timer := 1;
       fs_next_expires :=
         if fs_start_timer st =? 0 then expires delayed
         else min (fs_next_expires st) (expires delayed) |}.

(** [list_for_each_entry_safe] over the queue. *)
Fixpoint flush_loop (jiffies flush_all : Z) (l : list dm_delay_info)
    (st : flush_state) : flush_state :=
  match l with
  | [] => st
  | delayed :: next =>
      flush_loop jiffies flush_all next
        (flush_step jiffies flush_all delayed st)
  end.

(** The locked part of [flush_delayed_bios], lines 185-210. *)
Definition flush_scan (jiffies : Z) (dc : delay_c) (flush_all : Z)
  : flush_state :=
  flush_loop jiffies flush_all (delayed_bios dc)
    {| fs_list := []; fs_reads := reads dc; fs_writes := writes dc;
       fs_flush_bios := []; fs_start_timer := 0; fs_next_expires := 0 |}.

(** [flush_delayed_bios], lines 182-216. *)
Definition flush_delayed_bios (jiffies : Z) (dc : delay_c) (flush_all : Z)
  : delay_c * list bio :=
  let st := flush_scan jiffies dc flush_all in
  let dc := set_queue dc (fs_list st) (fs_reads st) (fs_writes st) in
  let dc :=
    if negb (fs_start_timer st =? 0)
    then queue_timeout dc (fs_next_expires st)
    else dc in
  (dc, fs_flush_bios st).

(** [flush_expired_bios], lines 218-224: the work item runs. *)
Definition flush_expired_bios (jiffies : Z) (dc : delay_c)
  : delay_c * list bio :=
  let '(dc, bios) := flush_delayed_bios jiffies dc 0 in
  (dc, flush_bios bios).

(** What [delay_ctr], lines 234-334, leaves in the context when it
    succeeds.  [raw] is the memory [kmalloc] returned; the constructor
    assigns the fields below and leaves the others as they were
    ([start_write] and [write_delay] with three arguments, the [expires] of
    the timer that [setup_timer] initialises).  The arguments are the values
    already parsed from [argv]. *)
Definition delay_ctr (raw : delay_c) (dev : dm_dev) (start delay : Z)
    (w : option (dm_dev * Z * Z)) : delay_c :=
  {| delay_timer :=
       {| pending := false; timer_expires := timer_expires (delay_timer raw) |};
     flush_work := false;
     delayed_bios := [];
     may_delay := 1;
     dev_read := dev;
     start_read := u64 start;
     read_delay := u32 delay;
     reads := 0;
     dev_write := match w with Some (d, _, _) => Some d | None => None end;
     start_write :=
       match w with Some (_, s, _) => u64 s | None => start_write raw end;
     write_delay :=
       match w with Some (_, _, d) => u32 d | None => write_delay raw end;
     writes := 0 |}.

(** [delay_bio], lines 353-380. *)
Definition delay_bio (jiffies : Z) (dc : delay_c) (delay : Z) (b : bio)
  : delay_c * mapio :=
  if (delay =? 0) || (may_delay dc =? 0) then (dc, DM_MAPIO_REMAPPED)
  else
    let expires := u64 (jiffies + msecs_to_jiffies (u32 delay)) in
    let delayed := {| info_bio := b; expires := expires |} in
    let dc :=
      if bio_data_dir b =? WRITE
      then set_queue dc (delayed_bios dc ++ [delayed])
             (reads dc) (u32 (writes dc + 1))
      else set_queue dc (delayed_bios dc ++ [delayed])
             (u32 (reads dc + 1)) (writes dc) in
    (queue_timeout dc expires, DM_MAPIO_SUBMITTED).

(** [delay_presuspend], lines 382-389. *)
Definition delay_presuspend (jiffies : Z) (ti : dm_target)
  : dm_target * list bio :=
  let dc := ti_private ti in
  let dc := set_may_delay dc 0 in
  let dc := set_delay_timer dc (del_timer_sync (delay_timer dc)) in
  let '(dc, bios) := flush_delayed_bios jiffies dc 1 in
  (set_private ti dc, flush_bios bios).

(** [delay_resume], lines 391-396. *)
Definition delay_resume (ti : dm_target) : dm_target :=
  set_private ti (set_may_delay (ti_private ti) 1).

(** The bio as [delay_map] leaves it on the write path, lines 403-406. *)
Definition remap_write (ti : dm_target) (dw : dm_dev) (b : bio) : bio :=
  let dc := ti_private ti in
  let b1 := set_bi_bdev b (bdev dw) in
  if negb (bio_sectors b1 =? 0)
  then set_bi_sector b1
         (u64 (start_write dc + dm_target_offset ti (bi_sector b1)))
  else b1.

(** The bio as [delay_map] leaves it on the read path, lines 411-412. *)
Definition remap_read (ti : dm_target) (b : bio) : bio :=
  let dc := ti_private ti in
  let b1 := set_bi_bdev b (bdev (dev_read dc)) in
  set_bi_sector b1 (u64 (start_read dc + dm_target_offset ti (bi_sector b1))).

(** [delay_map], lines 398-415.  The delays are [unsigned] fields passed as
    the [int] parameter of [delay_bio]. *)
Definition delay_map (jiffies : Z) (ti : dm_target) (b : bio)
  : dm_target * bio * mapio :=
  let dc := ti_private ti in
  match bio_data_dir b =? WRITE, dev_write dc with
  | true, Some dw =>
      let b := remap_write ti dw b in
      let '(dc, r) := delay_bio jiffies dc (s32 (write_delay dc)) b in
      (set_private ti dc, b, r)
  | _, _ =>
      let b := remap_read ti b in
      let '(dc, r) := delay_bio jiffies dc (s32 (read_delay dc)) b in
      (set_private ti dc, b, r)
  end.

(** ** Runs of a target

    What can happen to an active target, each event with the value of
    [jiffies] at that moment.  An event is one call of an entry point, taken
    as a whole.  The timer fires only when it is pending and has expired,
    and its callback only queues the work item; the work item runs only when
    it is queued. *)
Inductive event :=
| ev_map (jiffies : Z) (b : bio)
| ev_timer (jiffies : Z)
| ev_work (jiffies : Z)
| ev_presuspend (jiffies : Z)
| ev_resume
| ev_read_delay_store (jiffies uninit : Z) (buf : string) (count : Z)
| ev_write_delay_store (jiffies uninit : Z) (buf : string) (count : Z).

Definition step (e : event) (ti : dm_target) : option dm_target :=
  let dc := ti_private ti in
  match e with
  | ev_map j b => Some (fst (fst (delay_map j ti b)))
  | ev_timer j =>
      if timer_pending (delay_timer dc)
         && time_after_eq j (timer_expires (delay_timer dc))
      then Some (set_private ti (handle_delayed_timer dc))
      else None
  | ev_work j =>
      if flush_work dc
      then Some (set_private ti
                   (fst (flush_expired_bios j (set_flush_work dc false))))
      else None
  | ev_presuspend j => Some (fst (delay_presuspend j ti))
  | ev_resume => Some (delay_resume ti)
  | ev_read_delay_store j u buf count =>
      Some (set_private ti (fst (read_delay_store j u dc buf count)))
  | ev_write_delay_store j u buf count =>
      Some (set_private ti (fst (write_delay_store j u dc buf count)))
  end.

Fixpoint run (evs : list event) (ti : dm_target) : option dm_target :=
  match evs with
  | [] => Some ti
  | e :: rest =>
      match step e ti with
      | Some ti' => run rest ti'
      | None => None
      end
  end.

(** The entries of a queue whose bio has the given direction. *)
Definition queued (dir : Z) (l : list dm_delay_info) : list dm_delay_info :=
  filter (fun d => bio_data_dir (info_bio d) =? dir) l.

(** Whether [flush_delayed_bios] takes an entry off the queue. *)
Definition flushes (jiffies flush_all : Z) (d : dm_delay_info) : bool :=
  negb (flush_all =? 0) || time_after_eq jiffies (expires d).

End Target.

(** ** Notions used in the statements *)

(** What [start_timer] and [next_expires] say about the entries kept so
    far. *)
Definition next_expires_ok (st : flush_state) : Prop :=
  (fs_start_timer st = 0 /\ fs_list st = [])
  \/ (fs_start_timer st = 1
      /\ In (fs_next_expires st) (map expires (fs_list st))
      /\ forall d, In d (fs_list st) -> fs_next_expires st <= expires d).

(** How many entries of a queue have the given direction. *)
Definition queue_count (dir : Z) (l : list dm_delay_info) : Z :=
  Z.of_nat (List.length (queued dir l)).

(** The counters agree with the queue, as [unsigned] values. *)
Definition counters_ok (dc : delay_c) : Prop :=
  reads dc = u32 (queue_count READ (delayed_bios dc))
  /\ writes dc = u32 (queue_count WRITE (delayed_bios dc)).

(** The timer covers the queue: it is pending when an entry is queued, and
    a pending timer expires no later than any queued entry. *)
Definition armed_ok (dc : delay_c) : Prop :=
  (delayed_bios dc <> [] -> timer_pending (delay_timer dc) = true)
  /\ (timer_pending (delay_timer dc) = true ->
      forall d, In d (delayed_bios dc) ->
                timer_expires (delay_timer dc) <= expires d).

(** The delay [delay_map] passes on for a bio. *)
Definition selected_delay (dc : delay_c) (b : bio) : Z :=
  match bio_data_dir b =? WRITE, dev_write dc with
  | true, Some _ => write_delay dc
  | _, _ => read_delay dc
  end.

(** ** Concrete targets and bios *)

Definition dev_a : dm_dev := {| name := "7:0"; bdev := 1 |}.
Definition dev_b : dm_dev := {| name := "7:1"; bdev := 2 |}.

(** Some content of freshly allocated memory. *)
Definition raw_context : delay_c :=
  {| delay_timer := {| pending := true; timer_expires := 77 |};
     flush_work := true; delayed_bios := []; may_delay := 5;
     dev_read := dev_b; start_read := 9; read_delay := 9; reads := 9;
     dev_write := Some dev_a; start_write := 9; write_delay := 9;
     writes := 9 |}.

(** One device, offset 0, a read delay of 10 ms. *)
Definition ti_single : dm_target :=
  {| ti_begin := 0; ti_private := delay_ctr raw_context dev_a 0 10 None |}.

(** Reads on [dev_a] at offset 0 without delay, writes on [dev_b] at offset
    100 with a delay of 200 ms. *)
Definition ti_dual : dm_target :=
  {| ti_begin := 0;
     ti_private := delay_ctr raw_context dev_a 0 0 (Some (dev_b, 100, 200)) |}.

Definition read_bio : bio :=
  {| bi_bdev := 0; bi_sector := 8; bi_size := 4096; bi_rw := 0 |}.

Definition write_bio : bio :=
  {| bi_bdev := 0; bi_sector := 10; bi_size := 512; bi_rw := 1 |}.

(** A write without data, such as an empty flush. *)
Definition empty_write_bio : bio :=
  {| bi_bdev := 0; bi_sector := 10; bi_size := 0; bi_rw := 1 |}.

(** A context with one expired and one unexpired entry at [jiffies = 200]. *)
Definition dc_two_queued : delay_c :=
  set_queue (ti_private ti_dual)
    [ {| info_bio := write_bio; expires := 200 |};
      {| info_bio := read_bio; expires := 207 |} ] 1 1.

(** A run of the single-device target: two reads are delayed, the timer
    fires at the first expiry and the flush work runs. *)
Definition two_reads_then_flush : list event :=
  [ev_map 0 read_bio; ev_map 3 read_bio; ev_timer 10; ev_work 10].

Definition ti_after_flush : dm_target :=
  Eval vm_compute in
    match run msecs_to_jiffies_hz1000 sscanf_int two_reads_then_flush
            ti_single with
    | Some ti => ti
    | None => ti_single
    end.

(** A run in which a store arrives between the expiry of the timer and the
    flush work. *)
Definition store_before_flush : list event :=
  [ev_map 0 read_bio; ev_timer 10;
   ev_read_delay_store 10 0 "5000"%string 4].

(** ** Decimal text

    Instances of the conversions [%u] and [%llu] of [sprintf] and of the
    conversions [%llu%c] and [%u%c] of [sscanf]. *)

Definition digit_char (d : Z) : ascii := ascii_of_nat (Z.to_nat (48 + d)).

(** The decimal digits of [n], most significant first; [fuel] bounds their
    number. *)
Fixpoint dec_digits (fuel : nat) (n : Z) : string :=
  match fuel with
  | O => EmptyString
  | S f =>
      if n <? 10 then String (digit_char n) EmptyString
      else (dec_digits f (n / 10)
            ++ String (digit_char (n mod 10)) EmptyString)%string
  end.

(** [%u]: an [unsigned] has at most 10 digits. *)
Definition sprintf_u (n : Z) : string := dec_digits 10 (u32 n).

(** [%llu]: an [unsigned long long] has at most 20 digits. *)
Definition sprintf_llu (n : Z) : string := dec_digits 20 (u64 n).

Fixpoint skip_digits (s : string) : string :=
  match s with
  | String c r => if isdigit c then skip_digits r else s
  | EmptyString => s
  end.

(** [sscanf(s, "%llu%c", &x, &dummy) == 1]: a decimal number, after white
    space, up to the end of the text; [Some] of the value stored in [x]. *)
Definition sscanf_llu_c (s : string) : option Z :=
  match skip_spaces s with
  | String c r =>
      if isdigit c then
        match skip_digits r with
        | EmptyString => Some (u64 (strtoul (String c r) 0))
        | String _ _ => None
        end
      else None
  | EmptyString => None
  end.

(** [sscanf(s, "%u%c", &x, &dummy) == 1]. *)
Definition sscanf_u_c (s : string) : option Z :=
  match skip_spaces s with
  | String c r =>
      if isdigit c then
        match skip_digits r with
        | EmptyString => Some (u32 (strtoul (String c r) 0))
        | String _ _ => None
        end
      else None
  | EmptyString => None
  end.

(** The first [n] characters of a text. *)
Fixpoint take_chars (n : nat) (s : string) : string :=
  match n, s with
  | S m, String c r => String c (take_chars m r)
  | _, _ => EmptyString
  end.

(** ** Showing the delays, the status and the devices *)

(** [show_delay], lines 59-66: the text written to [buf] and the returned
    number of characters. *)
Definition show_delay (delay : Z) : string * Z :=
  let text := (sprintf_u delay ++ String "010" EmptyString)%string in
  (text, Z.of_nat (String.length text)).

(** [read_delay_show], lines 93-97. *)
Definition read_delay_show (dc : delay_c) : string * Z :=
  show_delay (read_delay dc).

(** [write_delay_show], lines 106-110. *)
Definition write_delay_show (dc : delay_c) : string * Z :=
  show_delay (write_delay dc).

Inductive status_type_t := STATUSTYPE_INFO | STATUSTYPE_TABLE.

(** The macro [DMEMIT] of linux/device-mapper.h:
    [sz += ((sz >= maxlen) ? 0 : scnprintf(result + sz, maxlen - sz, x))],
    where [scnprintf] writes at most [size - 1] characters and returns how
    many it wrote.  The state is the text in [result] and [sz]. *)
Definition DMEMIT (maxlen : Z) (st : string * Z) (text : string)
  : string * Z :=
  let '(result, sz) := st in
  if maxlen <=? sz then st
  else
    let n := Z.min (Z.of_nat (String.length text)) (maxlen - sz - 1) in
    ((result ++ take_chars (Z.to_nat n) text)%string, sz + n).

(** [delay_status], lines 417-438: the text left in [result]. *)
Definition delay_status (ti : dm_target) (type : status_type_t)
    (maxlen : Z) : string :=
  let dc := ti_private ti in
  let st := (EmptyString, 0) in
  match type with
  | STATUSTYPE_INFO =>
      fst (DMEMIT maxlen st
             (sprintf_u (reads dc) ++ " " ++ sprintf_u (writes dc))%string)
  | STATUSTYPE_TABLE =>
      let st :=
        DMEMIT maxlen st
          (name (dev_read dc) ++ " " ++ sprintf_llu (start_read dc) ++ " "
           ++ sprintf_u (read_delay dc))%string in
      match dev_write dc with
      | Some dw =>
          fst (DMEMIT maxlen st
                 (" " ++ name dw ++ " " ++ sprintf_llu (start_write dc)
                  ++ " " ++ sprintf_u (write_delay dc))%string)
      | None => fst st
      end
  end.

(** [delay_iterate_devices], lines 440-455.  [fn] is the callout, applied to
    a device, its start and the length [ti->len] of the target; the result
    is the calls made, in order, and the returned value. *)
Definition delay_iterate_devices (ti : dm_target) (len : Z)
    (fn : dm_dev -> Z -> Z -> Z) : list (dm_dev * Z * Z) * Z :=
  let dc := ti_private ti in
  let ret := fn (dev_read dc) (start_read dc) len in
  if negb (ret =? 0) then ([(dev_read dc, start_read dc, len)], ret)
  else
    match dev_write dc with
    | Some dw =>
        ([(dev_read dc, start_read dc, len); (dw, start_write dc, len)],
         fn dw (start_write dc) len)
    | None => ([(dev_read dc, start_read dc, len)], ret)
    end.

(** ** Construction and destruction *)

Definition EINVAL : Z := 22.
Definition ENOMEM : Z := 12.

(** What the constructor acquires and must give back: the context
    ([kmalloc] / [kfree]), a device ([dm_get_device] / [dm_put_device]), the
    work queue ([alloc_workqueue] / [destroy_workqueue]) and the sysfs
    object ([kobject_create_and_add] / [kobject_put]). *)
Inductive resource :=
| res_context
| res_device (d : dm_dev)
| res_workqueue
| res_kobject (n : string).

Inductive res_event :=
| acquire (r : resource)
| release (r : resource).

Definition dm_dev_eqb (a b : dm_dev) : bool :=
  String.eqb (name a) (name b) && (bdev a =? bdev b).

Definition resource_eqb (a b : resource) : bool :=
  match a, b with
  | res_context, res_context => true
  | res_device x, res_device y => dm_dev_eqb x y
  | res_workqueue, res_workqueue => true
  | res_kobject x, res_kobject y => String.eqb x y
  | _, _ => false
  end.

(** How many more times than released a resource was acquired. *)
Fixpoint balance (r : resource) (log : list res_event) : Z :=
  match log with
  | [] => 0
  | acquire x :: rest =>
      (if resource_eqb r x then 1 else 0) + balance r rest
  | release x :: rest =>
      (if resource_eqb r x then -1 else 0) + balance r rest
  end.

(** What the kernel answers to the constructor: the memory of [kmalloc]
    ([None] for [NULL]), the return value and the device of
    [dm_get_device] for a path, whether [alloc_workqueue] and
    [kobject_create_and_add] succeed, and the return value of
    [sysfs_create_group]. *)
Record ctr_env := {
  env_kmalloc : option delay_c;
  env_get_device : string -> Z * dm_dev;
  env_alloc_workqueue : bool;
  env_kobject_create_and_add : string -> bool;
  env_sysfs_create_group : Z
}.

(** The outcome of the constructor: the returned value, the message left in
    [ti->error] if one was set, the context left in [ti->private] on
    success, and the resources acquired and released, in order. *)
Record ctr_result := {
  ctr_ret : Z;
  ctr_error : option string;
  ctr_private : option delay_c;
  ctr_log : list res_event
}.

Definition set_dev_read (dc : delay_c) (d : dm_dev) : delay_c :=
  {| delay_timer := delay_timer dc; flush_work := flush_work dc;
     delayed_bios := delayed_bios dc; may_delay := may_delay dc;
     dev_read := d; start_read := start_read dc;
     read_delay := read_delay dc; reads := reads dc;
     dev_write := dev_write dc; start_write := start_write dc;
     write_delay := write_delay dc; writes := writes dc |}.

Definition set_start_read (dc : delay_c) (s : Z) : delay_c :=
  {| delay_timer := delay_timer dc; flush_work := flush_work dc;
     delayed_bios := delayed_bios dc; may_delay := may_delay dc;
     dev_read := dev_read dc; start_read := s;
     read_delay := read_delay dc; reads := reads dc;
     dev_write := dev_write dc; start_write := start_write dc;
     write_delay := write_delay dc; writes := writes dc |}.

Definition set_dev_write (dc : delay_c) (d : option dm_dev) : delay_c :=
  {| delay_timer := delay_timer dc; flush_work := flush_work dc;
     delayed_bios := delayed_bios dc; may_delay := may_delay dc;
     dev_read := dev_read dc; start_read := start_read dc;
     read_delay := read_delay dc; reads := reads dc;
     dev_write := d; start_write := start_write dc;
     write_delay := write_delay dc; writes := writes dc |}.

Definition set_start_write (dc : delay_c) (s : Z) : delay_c :=
  {| delay_timer := delay_timer dc; flush_work := flush_work dc;
     delayed_bios := delayed_bios dc; may_delay := may_delay dc;
     dev_read := dev_read dc; start_read := start_read dc;
     read_delay := read_delay dc; reads := reads dc;
     dev_write := dev_write dc; start_write := s;
     write_delay := write_delay dc; writes := writes dc |}.

(** [init_dev_kobject], lines 123-144. *)
Definition init_dev_kobject (env : ctr_env) (dc : delay_c)
  : Z * list res_event :=
  let n := name (dev_read dc) in
  if env_kobject_create_and_add env n then
    let ret := env_sysfs_create_group env in
    if negb (ret =? 0)
    then (ret, [acquire (res_kobject n); release (res_kobject n)])
    else (ret, [acquire (res_kobject n)])
  else (- ENOMEM, []).

(** [destroy_dev_kobject], lines 146-149. *)
Definition destroy_dev_kobject (dc : delay_c) : list res_event :=
  [release (res_kobject (name (dev_read dc)))].

Module Ctr.
Section Constructor.

(** The conversions [%llu%c] and [%u%c] of the kernel's [sscanf]: [Some v]
    when exactly one conversion is made and stores [v]. *)
Variable scan_llu_c : string -> option Z.
Variable scan_u_c : string -> option Z.

Definition arg (argv : list string) (i : nat) : string :=
  nth i argv EmptyString.

(** The labels [bad], [bad_dev_read], [bad_queue] and [bad_sysfs], lines
    324-333, each falling through to the next. *)
Definition bad (log : list res_event) (ret : Z) (err : option string)
  : ctr_result :=
  {| ctr_ret := ret; ctr_error := err; ctr_private := None;
     ctr_log := log ++ [release res_context] |}.

Definition bad_dev_read (dc : delay_c) (log : list res_event) (ret : Z)
    (err : option string) : ctr_result :=
  bad (log ++ [release (res_device (dev_read dc))]) ret err.

Definition bad_queue (dc : delay_c) (log : list res_event) (ret : Z)
    (err : option string) : ctr_result :=
  bad_dev_read dc
    (log ++ match dev_write dc with
            | Some dw => [release (res_device dw)]
            | None => []
            end) ret err.

Definition bad_sysfs (dc : delay_c) (log : list res_event) (ret : Z)
    (err : option string) : ctr_result :=
  bad_queue dc (log ++ [release res_workqueue]) ret err.

(** From the label [out] on, lines 296-322. *)
Definition out (env : ctr_env) (dc : delay_c) (log : list res_event)
  : ctr_result :=
  if env_alloc_workqueue env then
    let log := log ++ [acquire res_workqueue] in
    let dc :=
      set_delay_timer dc
        {| pending := false;
           timer_expires := timer_expires (delay_timer dc) |} in
    let dc := set_flush_work dc false in
    let dc := set_queue dc [] (reads dc) (writes dc) in
    let dc := set_may_delay dc 1 in
    let '(ret, klog) := init_dev_kobject env dc in
    if negb (ret =? 0) then bad_sysfs dc (log ++ klog) ret None
    else
      {| ctr_ret := 0; ctr_error := None; ctr_private := Some dc;
         ctr_log := log ++ klog |}
  else bad_queue dc log (- EINVAL) None.

(** [delay_ctr], lines 234-334, on the arguments [argv] ([argc] is their
    number). *)
Definition delay_ctr (env : ctr_env) (argv : list string) : ctr_result :=
  let argc := Z.of_nat (List.length argv) in
  if negb (argc =? 3) && negb (argc =? 6) then
    {| ctr_ret := - EINVAL;
       ctr_error := Some "Requires exactly 3 or 6 arguments"%string;
       ctr_private := None; ctr_log := [] |}
  else
    match env_kmalloc env with
    | None =>
        {| ctr_ret := - ENOMEM;
           ctr_error := Some "Cannot allocate context"%string;
           ctr_private := None; ctr_log := [] |}
    | Some raw =>
        let log := [acquire res_context] in
        let dc := set_queue raw (delayed_bios raw) 0 0 in
        match scan_llu_c (arg argv 1) with
        | None => bad log (- EINVAL) (Some "Invalid device sector"%string)
        | Some tmpll =>
        let dc := set_start_read dc (u64 tmpll) in
        match scan_u_c (arg argv 2) with
        | None => bad log (- EINVAL) (Some "Invalid delay"%string)
        | Some d =>
        let dc := set_read_delay dc (u32 d) in
        let '(ret, dev) := env_get_device env (arg argv 0) in
        if negb (ret =? 0)
        then bad log ret (Some "Device lookup failed"%string)
        else
        let dc := set_dev_read dc dev in
        let log := log ++ [acquire (res_device dev)] in
        let dc := set_dev_write dc None in
        if argc =? 3 then out env dc log
        else
        match scan_llu_c (arg argv 4) with
        | None =>
            bad_dev_read dc log (- EINVAL)
              (Some "Invalid write device sector"%string)
        | Some tmpll =>
        let dc := set_start_write dc (u64 tmpll) in
        match scan_u_c (arg argv 5) with
        | None =>
            bad_dev_read dc log (- EINVAL)
              (Some "Invalid write delay"%string)
        | Some d =>
        let dc := set_write_delay dc (u32 d) in
        let '(ret, devw) := env_get_device env (arg argv 3) in
        if negb (ret =? 0)
        then bad_dev_read dc log ret
               (Some "Write device lookup failed"%string)
        else
        let dc := set_dev_write dc (Some devw) in
        let log := log ++ [acquire (res_device devw)] in
        out env dc log
        end end end end
    end.

End Constructor.
End Ctr.

(** [delay_dtr], lines 336-351.  [kdelayd_wq] tells whether the pointer of
    that name in the context is not [NULL]. *)
Definition delay_dtr (dc : delay_c) (kdelayd_wq : bool) : list res_event :=
  destroy_dev_kobject dc
  ++ (if kdelayd_wq then [release res_workqueue] else [])
  ++ [release (res_device (dev_read dc))]
  ++ match dev_write dc with
     | Some dw => [release (res_device dw)]
     | None => []
     end
  ++ [release res_context].

(** ** Runs with the bios that enter and leave the queue *)

Section Traffic.

Variable msecs_to_jiffies : Z -> Z.
Variable sscanf_d : string -> option Z.

(** A step, with the bio that the event put on the queue, if any, and the
    bios that it handed to [generic_make_request]. *)
Definition step_io (e : event) (ti : dm_target)
  : option (dm_target * list bio * list bio) :=
  let dc := ti_private ti in
  match e with
  | ev_map j b =>
      let '(ti', b', r) := delay_map msecs_to_jiffies j ti b in
      Some (ti',
            match r with
            | DM_MAPIO_SUBMITTED => [b']
            | DM_MAPIO_REMAPPED => []
            end, [])
  | ev_work j =>
      if flush_work dc
      then
        let '(dc', bios) := flush_expired_bios j (set_flush_work dc false) in
        Some (set_private ti dc', [], bios)
      else None
  | ev_presuspend j =>
      let '(ti', bios) := delay_presuspend j ti in Some (ti', [], bios)
  | _ =>
      match step msecs_to_jiffies sscanf_d e ti with
      | Some ti' => Some (ti', [], [])
      | None => None
      end
  end.

(** A run, with all the bios queued and all the bios released, in order. *)
Fixpoint run_io (evs : list event) (ti : dm_target)
  : option (dm_target * list bio * list bio) :=
  match evs with
  | [] => Some (ti, [], [])
  | e :: rest =>
      match step_io e ti with
      | Some (ti1, queued1, released1) =>
          match run_io rest ti1 with
          | Some (ti2, queued2, released2) =>
              Some (ti2, queued1 ++ queued2, released1 ++ released2)
          | None => None
          end
      | None => None
      end
  end.

End Traffic.

(** Whether an event is a store to one of the two delays. *)
Definition is_store (e : event) : bool :=
  match e with
  | ev_read_delay_store _ _ _ _ | ev_write_delay_store _ _ _ _ => true
  | _ => false
  end.

(** The devices and the offsets of a target. *)
Definition binding (ti : dm_target)
  : Z * dm_dev * Z * option dm_dev * Z :=
  (ti_begin ti, dev_read (ti_private ti), start_read (ti_private ti),
   dev_write (ti_private ti), start_write (ti_private ti)).

Definition same_binding (a b : delay_c) : Prop :=
  dev_read a = dev_read b /\ start_read a = start_read b
  /\ dev_write a = dev_write b /\ start_write a = start_write b.

Definition same_delays (a b : delay_c) : Prop :=
  read_delay a = read_delay b /\ write_delay a = write_delay b.

(** A kernel in which every allocation succeeds and the two paths name
    [dev_a] and [dev_b]; any other path fails with [-ENXIO]. *)
Definition env_ok : ctr_env :=
  {| env_kmalloc := Some raw_context;
     env_get_device :=
       fun path =>
         if String.eqb path "/dev/a" then (0, dev_a)
         else if String.eqb path "/dev/b" then (0, dev_b)
         else (-6, dev_a);
     env_alloc_workqueue := true;
     env_kobject_create_and_add := fun _ => true;
     env_sysfs_create_group := 0 |}.



Definition argv_dual : list string :=
  ["/dev/a"; "0"; "0"; "/dev/b"; "100"; "200"]%string.

(** The arguments and the optional write part that they describe. *)
Definition write_args (scan_llu_c scan_u_c : string -> option Z)
    (env : ctr_env) (rest : list string) (w : option (dm_dev * Z * Z))
  : Prop :=
  (rest = [] /\ w = None)
  \/ (exists pw sw dw startw delayw devw,
        rest = [pw; sw; dw]
        /\ scan_llu_c sw = Some startw
        /\ scan_u_c dw = Some delayw
        /\ env_get_device env pw = (0, devw)
        /\ w = Some (devw, startw, delayw)).

(** Splits the goal along every test of the constructor. *)
Ltac ctr_cases :=
  repeat (simpl;
          match goal with
          | |- context [match ?x with _ => _ end] => destruct x eqn:?
          end).

(** Decides the comparisons of the two directions. *)
Ltac dir_simpl :=
  change (READ =? READ) with true in *;
  change (WRITE =? WRITE) with true in *;
  change (READ =? WRITE) with false in *;
  change (WRITE =? READ) with false in *;
  cbv iota in *.

(** ** Arithmetic of the machine integers *)

Lemma u32_range (x : Z) : 0 <= u32 x < 2 ^ 32.
Proof. unfold u32. apply Z.mod_pos_bound. lia. Qed.

Lemma u32_small (x : Z) : 0 <= x < 2 ^ 32 -> u32 x = x.
Proof. unfold u32. intros H. apply Z.mod_small. exact H. Qed.

Lemma u32_s32 (x : Z) : u32 (s32 x) = u32 x.
Proof.
  unfold u32, s32.
  rewrite Zminus_mod_idemp_l.
  f_equal. lia.
Qed.

Lemma u32_succ (n : Z) : u32 (u32 n + 1) = u32 (n + 1).
Proof. unfold u32. rewrite Zplus_mod_idemp_l. reflexivity. Qed.

Lemma u32_pred (n : Z) : u32 (u32 n - 1) = u32 (n - 1).
Proof. unfold u32. rewrite Zminus_mod_idemp_l. reflexivity. Qed.

Lemma s64_u64_small (x : Z) : - 2 ^ 63 <= x < 2 ^ 63 -> s64 (u64 x) = x.
Proof.
  intros H. unfold s64, u64.
  rewrite Zplus_mod_idemp_l.
  rewrite Z.mod_small; lia.
Qed.

Lemma time_after_eq_le (now e : Z) :
  - 2 ^ 63 <= now - e < 2 ^ 63 -> time_after_eq now e = (e <=? now).
Proof.
  intros H. unfold time_after_eq. rewrite (s64_u64_small _ H).
  destruct (Z.leb_spec 0 (now - e)), (Z.leb_spec e now); (reflexivity || lia).
Qed.

Lemma bio_data_dir_cases (b : bio) :
  bio_data_dir b = READ \/ bio_data_dir b = WRITE.
Proof.
  unfold bio_data_dir, READ, WRITE.
  replace (Z.land (bi_rw b) 1) with (bi_rw b mod 2).
  - pose proof (Z.mod_pos_bound (bi_rw b) 2). lia.
  - symmetry. apply (Z.land_ones (bi_rw b) 1). lia.
Qed.

Lemma flush_bios_id (l : list bio) : flush_bios l = l.
Proof. induction l as [|b n IH]; simpl; [reflexivity | now rewrite IH]. Qed.

(** ** The loop of [flush_delayed_bios] *)

Lemma flush_loop_list (j fa : Z) (l : list dm_delay_info) (st : flush_state) :
  fs_list (flush_loop j fa l st)
  = fs_list st ++ filter (fun d => negb (flushes j fa d)) l.
Proof.
  revert st. induction l as [|d l IH]; intros st; simpl.
  - now rewrite app_nil_r.
  - rewrite IH. unfold flush_step, flushes.
    destruct (negb (fa =? 0) || time_after_eq j (expires d)); simpl.
    + reflexivity.
    + now rewrite <- app_assoc.
Qed.

Lemma flush_loop_bios (j fa : Z) (l : list dm_delay_info) (st : flush_state) :
  fs_flush_bios (flush_loop j fa l st)
  = fs_flush_bios st ++ map info_bio (filter (flushes j fa) l).
Proof.
  revert st. induction l as [|d l IH]; intros st; simpl.
  - now rewrite app_nil_r.
  - rewrite IH. unfold flush_step, flushes.
    destruct (negb (fa =? 0) || time_after_eq j (expires d)); simpl.
    + now rewrite <- app_assoc.
    + reflexivity.
Qed.

Lemma flush_step_next_expires (j fa : Z) (d : dm_delay_info)
    (st : flush_state) :
  next_expires_ok st -> next_expires_ok (flush_step j fa d st).
Proof.
  intros H. unfold flush_step.
  destruct (negb (fa =? 0) || time_after_eq j (expires d)).
  - exact H.
  - right. simpl. split; [reflexivity|].
    destruct H as [[H0 Hnil] | [H1 [Hin Hle]]].
    + rewrite H0, Hnil. simpl. split; [now left|].
      intros d' [<- | []]. lia.
    + rewrite H1. simpl. unfold min.
      destruct (Z.ltb_spec (fs_next_expires st) (expires d)) as [Hlt | Hge].
      * split.
        -- rewrite map_app. apply in_or_app. now left.
        -- intros d' Hd'. apply in_app_or in Hd'.
           destruct Hd' as [Hd' | [<- | []]]; [now apply Hle | lia].
      * split.
        -- rewrite map_app. apply in_or_app. right. now left.
        -- intros d' Hd'. apply in_app_or in Hd'.
           destruct Hd' as [Hd' | [<- | []]]; [|lia].
           specialize (Hle d' Hd'). lia.
Qed.

Lemma flush_loop_next_expires (j fa : Z) (l : list dm_delay_info)
    (st : flush_state) :
  next_expires_ok st -> next_expires_ok (flush_loop j fa l st).
Proof.
  revert st. induction l as [|d l IH]; intros st H; simpl.
  - exact H.
  - apply IH, flush_step_next_expires, H.
Qed.

Lemma flush_scan_next_expires (j : Z) (dc : delay_c) (fa : Z) :
  next_expires_ok (flush_scan j dc fa).
Proof.
  apply flush_loop_next_expires. left. simpl. split; reflexivity.
Qed.

Lemma flush_scan_list (j : Z) (dc : delay_c) (fa : Z) :
  fs_list (flush_scan j dc fa)
  = filter (fun d => negb (flushes j fa d)) (delayed_bios dc).
Proof. unfold flush_scan. now rewrite flush_loop_list. Qed.

Lemma flush_scan_bios (j : Z) (dc : delay_c) (fa : Z) :
  fs_flush_bios (flush_scan j dc fa)
  = map info_bio (filter (flushes j fa) (delayed_bios dc)).
Proof. unfold flush_scan. now rewrite flush_loop_bios. Qed.

Lemma filter_ext_in' {A} (f g : A -> bool) (l : list A) :
  (forall a, In a l -> f a = g a) -> filter f l = filter g l.
Proof.
  induction l as [|a l IH]; intros H; simpl; [reflexivity|].
  rewrite (H a (or_introl eq_refl)), IH; [reflexivity|].
  intros b Hb. apply H. now right.
Qed.

Lemma filter_map_comm {A B} (f : A -> B) (p : B -> bool) (l : list A) :
  filter p (map f l) = map f (filter (fun a => p (f a)) l).
Proof.
  induction l as [|a l IH]; simpl; [reflexivity|].
  rewrite IH. now destruct (p (f a)).
Qed.

Lemma filter_filter_comm {A} (p q : A -> bool) (l : list A) :
  filter p (filter q l) = filter q (filter p l).
Proof.
  induction l as [|a l IH]; simpl; [reflexivity|].
  destruct (p a) eqn:Hp, (q a) eqn:Hq; simpl; rewrite ?Hp, ?Hq, IH;
    reflexivity.
Qed.

Lemma flush_delayed_bios_queue (j : Z) (dc : delay_c) (fa : Z) :
  delayed_bios (fst (flush_delayed_bios j dc fa))
  = fs_list (flush_scan j dc fa).
Proof.
  unfold flush_delayed_bios, queue_timeout. simpl.
  destruct (negb (fs_start_timer (flush_scan j dc fa) =? 0)); simpl;
    [|reflexivity].
  now destruct (negb (timer_pending (delay_timer dc)) || _).
Qed.

(** ** Admission without delay *)

(** C2: when the delay is zero, or [may_delay] is cleared, [delay_bio]
    returns [DM_MAPIO_REMAPPED] and leaves the whole context as it was: the
    queue, both counters and the timer are untouched. *)
Theorem delay_bio_bypass (mj : Z -> Z) (jiffies : Z) (dc : delay_c)
    (delay : Z) (b : bio) :
  delay = 0 \/ may_delay dc = 0 ->
  delay_bio mj jiffies dc delay b = (dc, DM_MAPIO_REMAPPED)
  /\ delayed_bios (fst (delay_bio mj jiffies dc delay b)) = delayed_bios dc
  /\ reads (fst (delay_bio mj jiffies dc delay b)) = reads dc
  /\ writes (fst (delay_bio mj jiffies dc delay b)) = writes dc
  /\ delay_timer (fst (delay_bio mj jiffies dc delay b)) = delay_timer dc.
Proof.
  intros H.
  assert (E : delay_bio mj jiffies dc delay b = (dc, DM_MAPIO_REMAPPED)).
  { unfold delay_bio.
    destruct H as [-> | ->]; simpl; [reflexivity|].
    now rewrite orb_true_r. }
  rewrite E. simpl. repeat split; reflexivity.
Qed.

(** ** Draining the queue *)

(** C3: with the queued expiries within half the range of [jiffies] of the
    current time (where [time_after_eq] is the order of the integers),
    [flush_delayed_bios] takes off the queue exactly the entries whose
    expiry is at most [jiffies], all of them when [flush_all] is set; it
    returns their bios in queue order, so also in queue order within each
    direction; the entries it keeps stay in order; and [start_timer] is set
    exactly when some entry is kept, [next_expires] then being the least
    expiry among the kept entries. *)
Theorem flush_delayed_bios_drains (jiffies : Z) (dc : delay_c)
    (flush_all : Z) :
  (forall d, In d (delayed_bios dc) ->
             - 2 ^ 63 <= jiffies - expires d < 2 ^ 63) ->
  let removed d := negb (flush_all =? 0) || (expires d <=? jiffies) in
  let st := flush_scan jiffies dc flush_all in
  let r := flush_delayed_bios jiffies dc flush_all in
  snd r = map info_bio (filter removed (delayed_bios dc))
  /\ delayed_bios (fst r)
     = filter (fun d => negb (removed d)) (delayed_bios dc)
  /\ (forall dir,
        filter (fun b => bio_data_dir b =? dir) (snd r)
        = map info_bio (filter removed (queued dir (delayed_bios dc))))
  /\ (delayed_bios (fst r) = [] -> fs_start_timer st = 0)
  /\ (delayed_bios (fst r) <> [] ->
      fs_start_timer st = 1
      /\ In (fs_next_expires st) (map expires (delayed_bios (fst r)))
      /\ forall d, In d (delayed_bios (fst r)) ->
                   fs_next_expires st <= expires d).
Proof.
  intros Hwin removed st r.
  assert (Hf : forall d, In d (delayed_bios dc) ->
                         flushes jiffies flush_all d = removed d).
  { intros d Hd. unfold flushes, removed.
    now rewrite (time_after_eq_le _ _ (Hwin d Hd)). }
  assert (Hbios : snd r = map info_bio (filter removed (delayed_bios dc))).
  { unfold r, flush_delayed_bios. simpl. rewrite flush_scan_bios.
    f_equal. now apply filter_ext_in'. }
  assert (Hq : delayed_bios (fst r) = fs_list st).
  { apply flush_delayed_bios_queue. }
  split; [exact Hbios|].
  split.
  { rewrite Hq. unfold st. rewrite flush_scan_list.
    apply filter_ext_in'. intros d Hd. now rewrite (Hf d Hd). }
  split.
  { intros dir. rewrite Hbios, filter_map_comm. f_equal.
    unfold queued. apply filter_filter_comm. }
  rewrite Hq. subst st.
  destruct (flush_scan_next_expires jiffies dc flush_all)
    as [[H0 Hnil] | [H1 [Hin Hle]]].
  - split; [intros _; exact H0 | intros Hne; contradiction].
  - split; [|intros _; auto].
    intros Hnil. rewrite Hnil in Hin. destruct Hin.
Qed.

(** ** Suspending *)

(** C8: [delay_presuspend] clears [may_delay], leaves the timer not
    pending, hands every queued bio to [generic_make_request] exactly as
    queued (the same bios in the same order, so as many as were queued and
    none twice), and leaves the queue empty. *)
Theorem delay_presuspend_drains_all (jiffies : Z) (ti : dm_target) :
  let r := delay_presuspend jiffies ti in
  let dc' := ti_private (fst r) in
  may_delay dc' = 0
  /\ timer_pending (delay_timer dc') = false
  /\ snd r = map info_bio (delayed_bios (ti_private ti))
  /\ List.length (snd r) = List.length (delayed_bios (ti_private ti))
  /\ delayed_bios dc' = [].
Proof.
  set (dc0 := set_delay_timer (set_may_delay (ti_private ti) 0)
                (del_timer_sync (delay_timer (set_may_delay (ti_private ti) 0)))).
  assert (Hall : forall l : list dm_delay_info,
             filter (flushes jiffies 1) l = l
             /\ filter (fun d => negb (flushes jiffies 1 d)) l = []).
  { induction l as [|d l [IH1 IH2]]; cbn [filter]; [split; reflexivity|].
    change (flushes jiffies 1 d) with true. cbn [negb].
    rewrite IH1, IH2. split; reflexivity. }
  assert (Hlist : fs_list (flush_scan jiffies dc0 1) = []).
  { rewrite flush_scan_list. apply Hall. }
  assert (Hbios : fs_flush_bios (flush_scan jiffies dc0 1)
                  = map info_bio (delayed_bios (ti_private ti))).
  { rewrite flush_scan_bios. simpl. f_equal. apply Hall. }
  assert (Hst : fs_start_timer (flush_scan jiffies dc0 1) = 0).
  { destruct (flush_scan_next_expires jiffies dc0 1)
      as [[H0 _] | [_ [Hin _]]]; [exact H0|].
    rewrite Hlist in Hin. destruct Hin. }
  cbv zeta. unfold delay_presuspend, flush_delayed_bios. fold dc0.
  rewrite Hst, Hlist, Hbios, flush_bios_id. simpl.
  rewrite length_map. repeat split; reflexivity.
Qed.

(** ** The dispatch of [delay_map] *)

Lemma delay_map_write_path (mj : Z -> Z) (j : Z) (ti : dm_target) (b : bio)
    (dw : dm_dev) :
  bio_data_dir b = WRITE -> dev_write (ti_private ti) = Some dw ->
  let b' := remap_write ti dw b in
  let r := delay_bio mj j (ti_private ti)
             (s32 (write_delay (ti_private ti))) b' in
  delay_map mj j ti b = (set_private ti (fst r), b', snd r).
Proof.
  intros Hdir Hdev. unfold delay_map. rewrite Hdir, Hdev. simpl.
  now destruct (delay_bio _ _ _ _ _).
Qed.

Lemma delay_map_read_path (mj : Z -> Z) (j : Z) (ti : dm_target) (b : bio) :
  bio_data_dir b <> WRITE \/ dev_write (ti_private ti) = None ->
  let b' := remap_read ti b in
  let r := delay_bio mj j (ti_private ti)
             (s32 (read_delay (ti_private ti))) b' in
  delay_map mj j ti b = (set_private ti (fst r), b', snd r).
Proof.
  intros H. unfold delay_map.
  destruct (Z.eqb_spec (bio_data_dir b) WRITE) as [Hw | Hw].
  - destruct H as [H | H]; [contradiction|]. rewrite H.
    now destruct (delay_bio _ _ _ _ _).
  - now destruct (delay_bio _ _ _ _ _).
Qed.

Lemma remap_write_sector (ti : dm_target) (dw : dm_dev) (b : bio) :
  bi_sector (remap_write ti dw b)
  = if bio_sectors b =? 0 then bi_sector b
    else u64 (start_write (ti_private ti)
              + dm_target_offset ti (bi_sector b)).
Proof.
  unfold remap_write.
  change (bio_sectors (set_bi_bdev b (bdev dw))) with (bio_sectors b).
  destruct (bio_sectors b =? 0); reflexivity.
Qed.

(** C10: on the write path (a write bio, a write device configured) the
    sector becomes [start_write + dm_target_offset] only for a bio with a
    non-zero number of sectors, and a zero-sector write keeps its sector;
    on the read path the sector always becomes
    [start_read + dm_target_offset]. *)
Theorem delay_map_sector_translation (mj : Z -> Z) (jiffies : Z)
    (ti : dm_target) (b : bio) :
  let dc := ti_private ti in
  let b' := snd (fst (delay_map mj jiffies ti b)) in
  (bio_data_dir b = WRITE -> dev_write dc <> None ->
     (bio_sectors b <> 0 ->
        bi_sector b' = u64 (start_write dc + dm_target_offset ti (bi_sector b)))
     /\ (bio_sectors b = 0 -> bi_sector b' = bi_sector b))
  /\ (bio_data_dir b <> WRITE \/ dev_write dc = None ->
        bi_sector b' = u64 (start_read dc + dm_target_offset ti (bi_sector b))).
Proof.
  cbv zeta. split.
  - intros Hdir Hdev.
    destruct (dev_write (ti_private ti)) as [dw|] eqn:Edev; [|contradiction].
    rewrite (delay_map_write_path mj jiffies ti b dw Hdir Edev).
    cbn [fst snd]. rewrite remap_write_sector. split; intros Hs.
    + destruct (Z.eqb_spec (bio_sectors b) 0); [contradiction|]. reflexivity.
    + rewrite Hs. reflexivity.
  - intros H. rewrite (delay_map_read_path mj jiffies ti b H). reflexivity.
Qed.

(** C1, as amended: [delay_map] sends the bio to the write device and
    admits it with the write delay exactly when it is a write and a write
    device is configured, and otherwise sends it to the read device and
    admits it with the read delay.  The sector becomes the base offset of
    that device plus the offset of the bio within the target (sectors that
    fit [sector_t]) on the read path, and on the write path for a bio with
    a non-zero number of sectors. *)
Theorem delay_map_selects_endpoint (mj : Z -> Z) (jiffies : Z)
    (ti : dm_target) (b : bio) :
  0 <= ti_begin ti <= bi_sector b ->
  let dc := ti_private ti in
  let r := delay_map mj jiffies ti b in
  let b' := snd (fst r) in
  let admitted delay :=
    (ti_private (fst (fst r)), snd r) = delay_bio mj jiffies dc delay b' in
  (forall dw, bio_data_dir b = WRITE -> dev_write dc = Some dw ->
     bi_bdev b' = bdev dw
     /\ admitted (s32 (write_delay dc))
     /\ (bio_sectors b <> 0 ->
         0 <= start_write dc ->
         start_write dc + (bi_sector b - ti_begin ti) < 2 ^ 64 ->
         bi_sector b' = start_write dc + (bi_sector b - ti_begin ti)))
  /\ (bio_data_dir b <> WRITE \/ dev_write dc = None ->
     bi_bdev b' = bdev (dev_read dc)
     /\ admitted (s32 (read_delay dc))
     /\ (0 <= start_read dc ->
         start_read dc + (bi_sector b - ti_begin ti) < 2 ^ 64 ->
         bi_sector b' = start_read dc + (bi_sector b - ti_begin ti))).
Proof.
  intros Hb. cbv zeta.
  assert (Hoff : forall base, 0 <= base ->
            base + (bi_sector b - ti_begin ti) < 2 ^ 64 ->
            u64 (base + dm_target_offset ti (bi_sector b))
            = base + (bi_sector b - ti_begin ti)).
  { intros base H0 H1. unfold dm_target_offset, u64.
    rewrite (Z.mod_small (bi_sector b - ti_begin ti)) by lia.
    apply Z.mod_small. lia. }
  split.
  - intros dw Hdir Hdev.
    rewrite (delay_map_write_path mj jiffies ti b dw Hdir Hdev).
    cbn [fst snd]. split; [|split].
    + unfold remap_write. now destruct (negb _).
    + now destruct (delay_bio _ _ _ _ _).
    + intros Hs H0 H1. rewrite remap_write_sector.
      destruct (Z.eqb_spec (bio_sectors b) 0); [contradiction|].
      now apply Hoff.
  - intros H. rewrite (delay_map_read_path mj jiffies ti b H).
    cbn [fst snd]. split; [reflexivity|]. split.
    + now destruct (delay_bio _ _ _ _ _).
    + intros H0 H1. now apply Hoff.
Qed.

(** ** What arming the timer and admitting a bio change *)

Lemma queue_timeout_frame (dc : delay_c) (e : Z) :
  delayed_bios (queue_timeout dc e) = delayed_bios dc
  /\ reads (queue_timeout dc e) = reads dc
  /\ writes (queue_timeout dc e) = writes dc
  /\ flush_work (queue_timeout dc e) = flush_work dc
  /\ read_delay (queue_timeout dc e) = read_delay dc
  /\ write_delay (queue_timeout dc e) = write_delay dc
  /\ dev_write (queue_timeout dc e) = dev_write dc.
Proof.
  unfold queue_timeout.
  destruct (negb (timer_pending (delay_timer dc)) || _); simpl;
    repeat split; reflexivity.
Qed.

Lemma queue_timeout_armed (dc : delay_c) (e : Z) :
  timer_pending (delay_timer (queue_timeout dc e)) = true
  /\ timer_expires (delay_timer (queue_timeout dc e)) <= e
  /\ (timer_pending (delay_timer dc) = true ->
      timer_expires (delay_timer (queue_timeout dc e))
      <= timer_expires (delay_timer dc)).
Proof.
  unfold queue_timeout, timer_pending.
  destruct (pending (delay_timer dc)) eqn:Hp; simpl.
  - destruct (Z.ltb_spec e (timer_expires (delay_timer dc))); simpl.
    + split; [reflexivity | split; [lia | intros _; lia]].
    + rewrite Hp. split; [reflexivity | split; [lia | intros _; lia]].
  - split; [reflexivity | split; [lia | discriminate]].
Qed.

Lemma delay_bio_cases (mj : Z -> Z) (j : Z) (dc : delay_c) (delay : Z)
    (b : bio) :
  delay_bio mj j dc delay b = (dc, DM_MAPIO_REMAPPED)
  \/ (snd (delay_bio mj j dc delay b) = DM_MAPIO_SUBMITTED
      /\ delayed_bios (fst (delay_bio mj j dc delay b))
         = delayed_bios dc
           ++ [{| info_bio := b; expires := u64 (j + mj (u32 delay)) |}]).
Proof.
  unfold delay_bio.
  destruct ((delay =? 0) || (may_delay dc =? 0)); [now left|right].
  cbn [fst snd]. split; [reflexivity|].
  destruct (queue_timeout_frame
              (if bio_data_dir b =? WRITE
               then set_queue dc
                      (delayed_bios dc
                       ++ [{| info_bio := b;
                              expires := u64 (j + mj (u32 delay)) |}])
                      (reads dc) (u32 (writes dc + 1))
               else set_queue dc
                      (delayed_bios dc
                       ++ [{| info_bio := b;
                              expires := u64 (j + mj (u32 delay)) |}])
                      (u32 (reads dc + 1)) (writes dc))
              (u64 (j + mj (u32 delay)))) as [-> _].
  now destruct (bio_data_dir b =? WRITE).
Qed.

Lemma delay_map_queue (mj : Z -> Z) (j : Z) (ti : dm_target) (b : bio) :
  let r := delay_map mj j ti b in
  (snd r = DM_MAPIO_REMAPPED
   /\ delayed_bios (ti_private (fst (fst r))) = delayed_bios (ti_private ti))
  \/ (snd r = DM_MAPIO_SUBMITTED
      /\ delayed_bios (ti_private (fst (fst r)))
         = delayed_bios (ti_private ti)
           ++ [{| info_bio := snd (fst r);
                  expires :=
                    u64 (j + mj (u32 (selected_delay (ti_private ti) b))) |}]).
Proof.
  cbv zeta. unfold selected_delay.
  destruct (Z.eqb_spec (bio_data_dir b) WRITE) as [Hw | Hw].
  - destruct (dev_write (ti_private ti)) as [dw|] eqn:Hdev.
    + rewrite (delay_map_write_path mj j ti b dw Hw Hdev). cbn [fst snd].
      unfold set_private. cbn [ti_private]. rewrite <- u32_s32.
      destruct (delay_bio_cases mj j (ti_private ti)
                  (s32 (write_delay (ti_private ti))) (remap_write ti dw b))
        as [-> | [H1 H2]]; [left | right]; auto.
    + rewrite (delay_map_read_path mj j ti b (or_intror Hdev)). cbn [fst snd].
      unfold set_private. cbn [ti_private]. rewrite <- u32_s32.
      destruct (delay_bio_cases mj j (ti_private ti)
                  (s32 (read_delay (ti_private ti))) (remap_read ti b))
        as [-> | [H1 H2]]; [left | right]; auto.
  - rewrite (delay_map_read_path mj j ti b (or_introl Hw)). cbn [fst snd].
    unfold set_private. cbn [ti_private]. rewrite <- u32_s32.
    destruct (delay_bio_cases mj j (ti_private ti)
                (s32 (read_delay (ti_private ti))) (remap_read ti b))
      as [-> | [H1 H2]]; [left | right]; auto.
Qed.

(** ** The sysfs stores *)

Lemma store_delay_frame (mj : Z -> Z) (sc : string -> option Z)
    (j u : Z) (dc : delay_c) (p : delay_ptr) (buf : string) (count : Z) :
  let dc' := fst (store_delay mj sc j u dc p buf count) in
  delayed_bios dc' = delayed_bios dc
  /\ reads dc' = reads dc
  /\ writes dc' = writes dc
  /\ flush_work dc' = flush_work dc
  /\ dev_write dc' = dev_write dc.
Proof.
  cbv zeta. unfold store_delay.
  destruct (_ <? 0); cbn [fst]; [repeat split; reflexivity|].
  match goal with
  | |- context [queue_timeout ?d ?e] =>
      destruct (queue_timeout_frame d e) as (-> & -> & -> & -> & _ & _ & ->)
  end.
  destruct p; simpl; repeat split; reflexivity.
Qed.

Lemma store_delay_value (mj : Z -> Z) (sc : string -> option Z)
    (j u : Z) (dc : delay_c) (p : delay_ptr) (buf : string) (count : Z) :
  load_delay (fst (store_delay mj sc j u dc p buf count)) p
  = match sc buf with Some v => u32 v | None => u32 u end
  /\ snd (store_delay mj sc j u dc p buf count) = s64 count.
Proof.
  unfold store_delay.
  set (nd := match sc buf with Some v => u32 v | None => u32 u end).
  assert (Hnd : 0 <= nd < 2 ^ 32).
  { unfold nd. destruct (sc buf); apply u32_range. }
  destruct (Z.ltb_spec nd 0) as [Hneg | _]; [lia|]. cbn [fst snd].
  split; [|reflexivity].
  match goal with
  | |- context [queue_timeout ?d ?e] =>
      destruct (queue_timeout_frame d e) as (_ & _ & _ & _ & Hr & Hw & _)
  end.
  destruct p; cbn [load_delay]; [rewrite Hr | rewrite Hw]; reflexivity.
Qed.

(** C4: a store to [read_delay] or [write_delay] leaves the queue, and so
    the expiry of every queued entry, as it was; a bio mapped afterwards is
    either not queued or appended behind the untouched entries with an
    expiry computed from the delay that the store left in the context; and
    a store of a number in the range of [unsigned] leaves that number
    there. *)
Theorem store_keeps_queued_expiries (mj : Z -> Z) (sc : string -> option Z)
    (jiffies uninit : Z) (dc : delay_c) (buf : string) (count : Z) :
  let after_r := fst (read_delay_store mj sc jiffies uninit dc buf count) in
  let after_w := fst (write_delay_store mj sc jiffies uninit dc buf count) in
  delayed_bios after_r = delayed_bios dc
  /\ delayed_bios after_w = delayed_bios dc
  /\ (forall dc' j' first b, dc' = after_r \/ dc' = after_w ->
        let r := delay_map mj j' {| ti_begin := first; ti_private := dc' |} b in
        (snd r = DM_MAPIO_REMAPPED
         /\ delayed_bios (ti_private (fst (fst r))) = delayed_bios dc)
        \/ (snd r = DM_MAPIO_SUBMITTED
            /\ delayed_bios (ti_private (fst (fst r)))
               = delayed_bios dc
                 ++ [{| info_bio := snd (fst r);
                        expires :=
                          u64 (j' + mj (u32 (selected_delay dc' b))) |}]))
  /\ (forall v, sc buf = Some v -> 0 <= v < 2 ^ 32 ->
        read_delay after_r = v
        /\ (dev_write dc <> None -> write_delay after_w = v)).
Proof.
  cbv zeta.
  assert (Hr : delayed_bios
                 (fst (read_delay_store mj sc jiffies uninit dc buf count))
               = delayed_bios dc).
  { apply store_delay_frame. }
  assert (Hw : delayed_bios
                 (fst (write_delay_store mj sc jiffies uninit dc buf count))
               = delayed_bios dc).
  { unfold write_delay_store. destruct (dev_write dc); [|reflexivity].
    apply store_delay_frame. }
  split; [exact Hr|]. split; [exact Hw|]. split.
  - intros dc' j' first b Hdc'.
    assert (Hq : delayed_bios dc' = delayed_bios dc)
      by (destruct Hdc' as [-> | ->]; assumption).
    rewrite <- Hq.
    apply (delay_map_queue mj j' {| ti_begin := first; ti_private := dc' |} b).
  - intros v Hv Hrange. split.
    + unfold read_delay_store.
      pose proof (store_delay_value mj sc jiffies uninit dc read_delay_ptr
                    buf count) as [H _].
      cbn [load_delay] in H. rewrite H, Hv. now apply u32_small.
    + intros Hdev. unfold write_delay_store.
      destruct (dev_write dc); [|contradiction].
      pose proof (store_delay_value mj sc jiffies uninit dc write_delay_ptr
                    buf count) as [H _].
      cbn [load_delay] in H. rewrite H, Hv. now apply u32_small.
Qed.

(** ** The counters *)

Lemma queue_count_app (dir : Z) (a b : list dm_delay_info) :
  queue_count dir (a ++ b) = queue_count dir a + queue_count dir b.
Proof.
  unfold queue_count, queued. rewrite filter_app, length_app. lia.
Qed.

Lemma queue_count_one (dir : Z) (d : dm_delay_info) :
  queue_count dir [d] = if bio_data_dir (info_bio d) =? dir then 1 else 0.
Proof.
  unfold queue_count, queued. simpl.
  now destruct (bio_data_dir (info_bio d) =? dir).
Qed.

Lemma queue_count_cons (dir : Z) (d : dm_delay_info)
    (l : list dm_delay_info) :
  queue_count dir (d :: l) = queue_count dir [d] + queue_count dir l.
Proof. apply (queue_count_app dir [d] l). Qed.

Lemma queue_count_bounds (dir : Z) (l : list dm_delay_info) :
  0 <= queue_count dir l <= Z.of_nat (List.length l).
Proof.
  unfold queue_count, queued.
  pose proof (filter_length_le (fun d => bio_data_dir (info_bio d) =? dir) l).
  lia.
Qed.

Lemma counters_ok_ext (a b : delay_c) :
  delayed_bios a = delayed_bios b -> reads a = reads b ->
  writes a = writes b -> counters_ok b -> counters_ok a.
Proof. unfold counters_ok. intros -> -> ->. exact (fun H => H). Qed.

Lemma delay_bio_counters (mj : Z -> Z) (j : Z) (dc : delay_c) (delay : Z)
    (b : bio) :
  counters_ok dc -> counters_ok (fst (delay_bio mj j dc delay b)).
Proof.
  intros [Hr Hw]. unfold delay_bio.
  destruct ((delay =? 0) || (may_delay dc =? 0)); [now split|].
  cbn [fst].
  set (d := {| info_bio := b; expires := u64 (j + mj (u32 delay)) |}).
  assert (Hd : forall dir, queue_count dir [d]
                           = if bio_data_dir b =? dir then 1 else 0).
  { intros dir. apply queue_count_one. }
  match goal with
  | |- counters_ok (queue_timeout ?x ?e) =>
      destruct (queue_timeout_frame x e) as (Hq & Hrd & Hwr & _);
      apply (counters_ok_ext _ x Hq Hrd Hwr)
  end.
  destruct (bio_data_dir_cases b) as [Hdir | Hdir]; rewrite Hdir;
    dir_simpl; unfold counters_ok; cbn [set_queue delayed_bios reads writes];
    rewrite !queue_count_app, !Hd, Hdir; dir_simpl.
  - rewrite Hr, Hw, u32_succ, Z.add_0_r. split; reflexivity.
  - rewrite Hr, Hw, u32_succ, Z.add_0_r. split; reflexivity.
Qed.

Lemma flush_loop_counters (j fa : Z) (l : list dm_delay_info)
    (st : flush_state) :
  fs_reads st = u32 (queue_count READ (fs_list st ++ l)) ->
  fs_writes st = u32 (queue_count WRITE (fs_list st ++ l)) ->
  fs_reads (flush_loop j fa l st)
  = u32 (queue_count READ (fs_list (flush_loop j fa l st)))
  /\ fs_writes (flush_loop j fa l st)
     = u32 (queue_count WRITE (fs_list (flush_loop j fa l st))).
Proof.
  revert st. induction l as [|d l IH]; intros st Hr Hw; simpl.
  - rewrite app_nil_r in Hr, Hw. now split.
  - apply IH; unfold flush_step;
      destruct (negb (fa =? 0) || time_after_eq j (expires d)); simpl;
      try (rewrite <- app_assoc; assumption);
      rewrite queue_count_app, queue_count_cons, queue_count_one in Hr, Hw;
      rewrite queue_count_app;
      destruct (bio_data_dir_cases (info_bio d)) as [Hdir | Hdir];
      rewrite Hdir in *; dir_simpl.
    + rewrite Hr, u32_pred. f_equal; lia.
    + rewrite Hr. f_equal; lia.
    + rewrite Hw. f_equal; lia.
    + rewrite Hw, u32_pred. f_equal; lia.
Qed.

Lemma flush_delayed_bios_counters (j : Z) (dc : delay_c) (fa : Z) :
  counters_ok dc -> counters_ok (fst (flush_delayed_bios j dc fa)).
Proof.
  intros [Hr Hw].
  destruct (flush_loop_counters j fa (delayed_bios dc)
              {| fs_list := []; fs_reads := reads dc; fs_writes := writes dc;
                 fs_flush_bios := []; fs_start_timer := 0;
                 fs_next_expires := 0 |} Hr Hw) as [Hr' Hw'].
  fold (flush_scan j dc fa) in Hr', Hw'.
  unfold flush_delayed_bios. cbn [fst].
  destruct (negb (fs_start_timer (flush_scan j dc fa) =? 0)).
  - match goal with
    | |- counters_ok (queue_timeout ?x ?e) =>
        destruct (queue_timeout_frame x e) as (Hq & Hrd & Hwr & _);
        apply (counters_ok_ext _ x Hq Hrd Hwr)
    end.
    split; assumption.
  - split; assumption.
Qed.

Lemma delay_map_private (mj : Z -> Z) (j : Z) (ti : dm_target) (b : bio) :
  exists delay b',
    ti_private (fst (fst (delay_map mj j ti b)))
    = fst (delay_bio mj j (ti_private ti) delay b').
Proof.
  destruct (Z.eqb_spec (bio_data_dir b) WRITE) as [Hw | Hw].
  - destruct (dev_write (ti_private ti)) as [dw|] eqn:Hdev.
    + rewrite (delay_map_write_path mj j ti b dw Hw Hdev).
      eexists _, _. reflexivity.
    + rewrite (delay_map_read_path mj j ti b (or_intror Hdev)).
      eexists _, _. reflexivity.
  - rewrite (delay_map_read_path mj j ti b (or_introl Hw)).
    eexists _, _. reflexivity.
Qed.

Lemma flush_expired_bios_fst (j : Z) (dc : delay_c) :
  fst (flush_expired_bios j dc) = fst (flush_delayed_bios j dc 0).
Proof.
  unfold flush_expired_bios. now destruct (flush_delayed_bios j dc 0).
Qed.

Lemma delay_presuspend_private (j : Z) (ti : dm_target) :
  ti_private (fst (delay_presuspend j ti))
  = fst (flush_delayed_bios j
           (set_delay_timer (set_may_delay (ti_private ti) 0)
              (del_timer_sync (delay_timer (set_may_delay (ti_private ti) 0))))
           1).
Proof.
  unfold delay_presuspend. now destruct (flush_delayed_bios j _ 1).
Qed.

Lemma some_eq {A} (x y : A) : Some x = Some y -> x = y.
Proof. congruence. Qed.

Lemma step_counters (mj : Z -> Z) (sc : string -> option Z) (e : event)
    (ti ti' : dm_target) :
  counters_ok (ti_private ti) -> step mj sc e ti = Some ti' ->
  counters_ok (ti_private ti').
Proof.
  intros H Hstep. destruct e as [j b | j | j | j | | j u buf n | j u buf n];
    unfold step in Hstep.
  - apply some_eq in Hstep; subst ti'.
    destruct (delay_map_private mj j ti b) as (delay & b' & ->).
    now apply delay_bio_counters.
  - destruct (_ && _); [|discriminate]. apply some_eq in Hstep; subst ti'. exact H.
  - destruct (flush_work (ti_private ti)); [|discriminate].
    apply some_eq in Hstep; subst ti'.
    cbn [set_private ti_private]. rewrite flush_expired_bios_fst.
    apply flush_delayed_bios_counters. exact H.
  - apply some_eq in Hstep; subst ti'. rewrite delay_presuspend_private.
    apply flush_delayed_bios_counters. exact H.
  - apply some_eq in Hstep; subst ti'. exact H.
  - apply some_eq in Hstep; subst ti'. cbn [set_private ti_private].
    unfold read_delay_store.
    destruct (store_delay_frame mj sc j u (ti_private ti) read_delay_ptr
                buf n) as (Hq & Hr & Hw & _).
    exact (counters_ok_ext _ _ Hq Hr Hw H).
  - apply some_eq in Hstep; subst ti'. cbn [set_private ti_private].
    unfold write_delay_store.
    destruct (dev_write (ti_private ti)); [|exact H].
    destruct (store_delay_frame mj sc j u (ti_private ti) write_delay_ptr
                buf n) as (Hq & Hr & Hw & _).
    exact (counters_ok_ext _ _ Hq Hr Hw H).
Qed.

Lemma run_counters (mj : Z -> Z) (sc : string -> option Z)
    (evs : list event) (ti ti' : dm_target) :
  counters_ok (ti_private ti) -> run mj sc evs ti = Some ti' ->
  counters_ok (ti_private ti').
Proof.
  revert ti. induction evs as [|e evs IH]; intros ti H Hrun; simpl in Hrun.
  - injection Hrun as <-. exact H.
  - destruct (step mj sc e ti) as [ti1|] eqn:E; [|discriminate].
    exact (IH ti1 (step_counters mj sc e ti ti1 H E) Hrun).
Qed.

(** C9: after any sequence of mappings, timer expiries, flushes, suspends,
    resumes and stores on a constructed target, with fewer than [2^32]
    entries queued, [reads] is the number of queued entries whose bio is a
    read and [writes] the number of those whose bio is a write. *)
Theorem counters_match_queue (mj : Z -> Z) (sc : string -> option Z)
    (raw : delay_c) (dev : dm_dev) (start delay : Z)
    (w : option (dm_dev * Z * Z)) (first : Z) (evs : list event)
    (ti : dm_target) :
  run mj sc evs
    {| ti_begin := first; ti_private := delay_ctr raw dev start delay w |}
  = Some ti ->
  Z.of_nat (List.length (delayed_bios (ti_private ti))) < 2 ^ 32 ->
  reads (ti_private ti) = queue_count READ (delayed_bios (ti_private ti))
  /\ writes (ti_private ti) = queue_count WRITE (delayed_bios (ti_private ti)).
Proof.
  intros Hrun Hlen.
  assert (H0 : counters_ok (delay_ctr raw dev start delay w)).
  { split; reflexivity. }
  destruct (run_counters mj sc evs
              {| ti_begin := first;
                 ti_private := delay_ctr raw dev start delay w |} ti H0 Hrun)
    as [Hr Hw].
  pose proof (queue_count_bounds READ (delayed_bios (ti_private ti))).
  pose proof (queue_count_bounds WRITE (delayed_bios (ti_private ti))).
  rewrite Hr, Hw, !u32_small by lia. split; reflexivity.
Qed.

(** ** The timer and the queue *)

Lemma armed_ok_ext (a b : delay_c) :
  delayed_bios a = delayed_bios b -> delay_timer a = delay_timer b ->
  armed_ok b -> armed_ok a.
Proof. unfold armed_ok. intros -> ->. exact (fun H => H). Qed.

(** Arming for [e] a timer that covers [l] up to entries that expire at [e]
    or later gives a timer that covers [l]. *)
Lemma queue_timeout_covers (dc : delay_c) (e : Z) (l : list dm_delay_info) :
  (forall d, In d l ->
     (timer_pending (delay_timer dc) = true
      /\ timer_expires (delay_timer dc) <= expires d)
     \/ e <= expires d) ->
  forall d, In d l -> timer_expires (delay_timer (queue_timeout dc e))
                      <= expires d.
Proof.
  intros H d Hd. destruct (queue_timeout_armed dc e) as (_ & He & Ht).
  destruct (H d Hd) as [[Hp Hle] | Hle]; [specialize (Ht Hp)|]; lia.
Qed.

Lemma queue_timeout_keeps_armed (dc : delay_c) (e : Z) :
  armed_ok dc -> armed_ok (queue_timeout dc e).
Proof.
  intros [Hne Hcov].
  destruct (queue_timeout_frame dc e) as (Hq & _).
  destruct (queue_timeout_armed dc e) as (Hp & _).
  split; [intros _; exact Hp|]. intros _. rewrite Hq.
  apply queue_timeout_covers. intros d Hd. left.
  assert (Hpd : timer_pending (delay_timer dc) = true).
  { apply Hne. intros Hnil. rewrite Hnil in Hd. destruct Hd. }
  split; [exact Hpd | exact (Hcov Hpd d Hd)].
Qed.

Lemma delay_bio_armed (mj : Z -> Z) (j : Z) (dc : delay_c) (delay : Z)
    (b : bio) :
  armed_ok dc -> armed_ok (fst (delay_bio mj j dc delay b)).
Proof.
  intros [Hne Hcov]. unfold delay_bio.
  destruct ((delay =? 0) || (may_delay dc =? 0)); [now split|].
  cbn [fst].
  set (e := u64 (j + mj (u32 delay))).
  set (d := {| info_bio := b; expires := e |}).
  set (dc1 := if bio_data_dir b =? WRITE
              then set_queue dc (delayed_bios dc ++ [d])
                     (reads dc) (u32 (writes dc + 1))
              else set_queue dc (delayed_bios dc ++ [d])
                     (u32 (reads dc + 1)) (writes dc)).
  assert (Hq1 : delayed_bios dc1 = delayed_bios dc ++ [d])
    by (unfold dc1; now destruct (bio_data_dir b =? WRITE)).
  assert (Ht1 : delay_timer dc1 = delay_timer dc)
    by (unfold dc1; now destruct (bio_data_dir b =? WRITE)).
  destruct (queue_timeout_frame dc1 e) as (Hq & _).
  destruct (queue_timeout_armed dc1 e) as (Hp & _).
  split; [intros _; exact Hp|]. intros _. rewrite Hq.
  apply queue_timeout_covers. rewrite Hq1, Ht1. intros d' Hd'.
  apply in_app_or in Hd'. destruct Hd' as [Hd' | [<- | []]].
  - left.
    assert (Hpd : timer_pending (delay_timer dc) = true).
    { apply Hne. intros Hnil. rewrite Hnil in Hd'. destruct Hd'. }
    split; [exact Hpd | exact (Hcov Hpd d' Hd')].
  - right. simpl. lia.
Qed.

(** Whatever the context was, a flush leaves a timer that covers what it
    leaves queued. *)
Lemma flush_delayed_bios_armed (j : Z) (dc : delay_c) (fa : Z) :
  armed_ok (fst (flush_delayed_bios j dc fa)).
Proof.
  unfold flush_delayed_bios. cbn [fst].
  destruct (flush_scan_next_expires j dc fa)
    as [[H0 Hnil] | [H1 [Hin Hle]]].
  - rewrite H0, Hnil. cbn [Z.eqb negb]. unfold armed_ok, set_queue.
    cbn [delayed_bios]. split; [congruence|]. intros _ d [].
  - rewrite H1. cbn [Z.eqb negb Pos.eqb].
    match goal with
    | |- armed_ok (queue_timeout ?x ?e) =>
        destruct (queue_timeout_frame x e) as (Hq & _);
        destruct (queue_timeout_armed x e) as (Hp & _);
        pose proof (queue_timeout_covers x e (delayed_bios x)) as Hcov
    end.
    split; [intros _; exact Hp|]. intros _. rewrite Hq.
    apply Hcov. intros d Hd. right. apply Hle. exact Hd.
Qed.

Lemma store_delay_armed (mj : Z -> Z) (sc : string -> option Z)
    (j u : Z) (dc : delay_c) (p : delay_ptr) (buf : string) (count : Z) :
  armed_ok dc -> armed_ok (fst (store_delay mj sc j u dc p buf count)).
Proof.
  intros H. unfold store_delay.
  destruct (_ <? 0); cbn [fst]; [exact H|].
  apply queue_timeout_keeps_armed.
  apply (armed_ok_ext _ dc); [now destruct p | now destruct p | exact H].
Qed.

Lemma step_armed (mj : Z -> Z) (sc : string -> option Z) (e : event)
    (ti ti' : dm_target) :
  (flush_work (ti_private ti) = false -> armed_ok (ti_private ti)) ->
  step mj sc e ti = Some ti' ->
  flush_work (ti_private ti') = false -> armed_ok (ti_private ti').
Proof.
  intros H Hstep.
  destruct e as [j b | j | j | j | | j u buf n | j u buf n];
    unfold step in Hstep.
  - apply some_eq in Hstep; subst ti'.
    destruct (delay_map_private mj j ti b) as (delay & b' & ->).
    intros Hw. apply delay_bio_armed, H.
    revert Hw. unfold delay_bio.
    destruct ((delay =? 0) || (may_delay (ti_private ti) =? 0));
      cbn [fst]; [exact (fun E => E)|].
    match goal with
    | |- context [queue_timeout ?x ?e] =>
        destruct (queue_timeout_frame x e) as (_ & _ & _ & -> & _)
    end.
    now destruct (bio_data_dir b' =? WRITE).
  - destruct (_ && _); [|discriminate].
    apply some_eq in Hstep; subst ti'. discriminate.
  - destruct (flush_work (ti_private ti)); [|discriminate].
    apply some_eq in Hstep; subst ti'. intros _.
    cbn [set_private ti_private]. rewrite flush_expired_bios_fst.
    apply flush_delayed_bios_armed.
  - apply some_eq in Hstep; subst ti'. intros _.
    rewrite delay_presuspend_private. apply flush_delayed_bios_armed.
  - apply some_eq in Hstep; subst ti'. exact H.
  - apply some_eq in Hstep; subst ti'. cbn [set_private ti_private].
    unfold read_delay_store. intros Hw. apply store_delay_armed, H.
    destruct (store_delay_frame mj sc j u (ti_private ti) read_delay_ptr
                buf n) as (_ & _ & _ & Hfw & _).
    now rewrite <- Hfw.
  - apply some_eq in Hstep; subst ti'. cbn [set_private ti_private].
    unfold write_delay_store.
    destruct (dev_write (ti_private ti)); [|exact H].
    intros Hw. apply store_delay_armed, H.
    destruct (store_delay_frame mj sc j u (ti_private ti) write_delay_ptr
                buf n) as (_ & _ & _ & Hfw & _).
    now rewrite <- Hfw.
Qed.

Lemma run_armed (mj : Z -> Z) (sc : string -> option Z)
    (evs : list event) (ti ti' : dm_target) :
  (flush_work (ti_private ti) = false -> armed_ok (ti_private ti)) ->
  run mj sc evs ti = Some ti' ->
  flush_work (ti_private ti') = false -> armed_ok (ti_private ti').
Proof.
  revert ti. induction evs as [|e evs IH]; intros ti H Hrun; simpl in Hrun.
  - apply some_eq in Hrun; subst ti'. exact H.
  - destruct (step mj sc e ti) as [ti1|] eqn:E; [|discriminate].
    exact (IH ti1 (step_armed mj sc e ti ti1 H E) Hrun).
Qed.

(** C7, as amended: in every state that a constructed target reaches and in
    which the flush work is not queued, the timer is pending whenever an
    entry is queued, and a pending timer expires no later than any queued
    entry; and [queue_timeout] sets the timer to the candidate exactly when
    the timer is not pending or the candidate is earlier than its expiry,
    and otherwise changes nothing. *)
Theorem timer_covers_queue (mj : Z -> Z) (sc : string -> option Z)
    (raw : delay_c) (dev : dm_dev) (start delay : Z)
    (w : option (dm_dev * Z * Z)) (first : Z) (evs : list event)
    (ti : dm_target) :
  run mj sc evs
    {| ti_begin := first; ti_private := delay_ctr raw dev start delay w |}
  = Some ti ->
  let dc := ti_private ti in
  (flush_work dc = false ->
   (delayed_bios dc <> [] -> timer_pending (delay_timer dc) = true)
   /\ (timer_pending (delay_timer dc) = true ->
       forall d, In d (delayed_bios dc) ->
                 timer_expires (delay_timer dc) <= expires d))
  /\ (forall candidate,
        (timer_pending (delay_timer dc) = false
         \/ candidate < timer_expires (delay_timer dc) ->
         queue_timeout dc candidate
         = set_delay_timer dc {| pending := true; timer_expires := candidate |})
        /\ (timer_pending (delay_timer dc) = true
            /\ timer_expires (delay_timer dc) <= candidate ->
            queue_timeout dc candidate = dc)).
Proof.
  intros Hrun dc. split.
  - apply (run_armed mj sc evs
             {| ti_begin := first;
                ti_private := delay_ctr raw dev start delay w |} ti);
      [|exact Hrun].
    intros _. split; [intros Hne; now elim Hne | discriminate].
  - intros candidate. unfold queue_timeout, timer_pending, mod_timer. split.
    + intros [-> | Hlt]; [reflexivity|].
      destruct (Z.ltb_spec candidate (timer_expires (delay_timer dc)));
        [|lia].
      now rewrite orb_true_r.
    + intros [-> Hle].
      destruct (Z.ltb_spec candidate (timer_expires (delay_timer dc)));
        [lia|].
      reflexivity.
Qed.

(** C7, counterexample: a read is delayed until [jiffies = 10]; the timer
    fires at 10 and queues the flush work; before the work runs, a store of
    5000 to [read_delay] finds the timer not pending and arms it for 5010.
    The timer is then pending for a time later than the expiry of the entry
    that is still queued. *)
Lemma timer_armed_later_than_queued_entry :
  option_map
    (fun ti =>
       let dc := ti_private ti in
       (timer_pending (delay_timer dc), timer_expires (delay_timer dc),
        map expires (delayed_bios dc), flush_work dc))
    (run msecs_to_jiffies_hz1000 sscanf_int store_before_flush ti_single)
  = Some (true, 5010, [10], true).
Proof. vm_compute. reflexivity. Qed.

Lemma timer_covers_queue_witness :
  run msecs_to_jiffies_hz1000 sscanf_int two_reads_then_flush ti_single
  = Some ti_after_flush
  /\ map expires (delayed_bios (ti_private ti_after_flush)) = [13]
  /\ timer_pending (delay_timer (ti_private ti_after_flush)) = true.
Proof.
  assert (Hrun : run msecs_to_jiffies_hz1000 sscanf_int two_reads_then_flush
                   ti_single = Some ti_after_flush)
    by (vm_compute; reflexivity).
  split; [exact Hrun|]. split; [vm_compute; reflexivity|].
  refine (proj1 (proj1 (timer_covers_queue msecs_to_jiffies_hz1000 sscanf_int
                          raw_context dev_a 0 10 None 0 two_reads_then_flush
                          ti_after_flush Hrun) _) _).
  - vm_compute. reflexivity.
  - vm_compute. discriminate.
Defined.

Lemma counters_match_queue_witness :
  reads (ti_private ti_after_flush) = 1
  /\ writes (ti_private ti_after_flush) = 0.
Proof.
  refine (counters_match_queue msecs_to_jiffies_hz1000 sscanf_int
            raw_context dev_a 0 10 None 0 two_reads_then_flush
            ti_after_flush _ _).
  - vm_compute. reflexivity.
  - vm_compute. reflexivity.
Defined.

(** ** Malformed and misdirected stores *)

(** C5, on the code: the value converted by [%d] lands in an [unsigned], so
    the test [new_delay < 0] never holds.  Storing ["-1"] over a read delay
    of 10 replaces it by 4294967295 (and arms the timer), and a text without
    digits stores whatever the local variable held (7 here); both calls
    return the count. *)
Theorem store_delay_stores_negative_input :
  let dc := ti_private ti_single in
  let neg := read_delay_store msecs_to_jiffies_hz1000 sscanf_int 0 7 dc
               "-1"%string 2 in
  let txt := read_delay_store msecs_to_jiffies_hz1000 sscanf_int 0 7 dc
               "fast"%string 4 in
  read_delay dc = 10
  /\ sscanf_int "-1"%string = Some (-1)
  /\ read_delay (fst neg) = 4294967295
  /\ snd neg = 2
  /\ sscanf_int "fast"%string = None
  /\ read_delay (fst txt) = 7
  /\ snd txt = 4.
Proof. vm_compute. repeat split; reflexivity. Qed.

(** C6, counterexample: on a target without write device a store to
    [write_delay] returns the count, 2 here, which is not a negative error
    code. *)
Lemma write_delay_store_reports_success :
  let r := write_delay_store msecs_to_jiffies_hz1000 sscanf_int 0 0
             (ti_private ti_single) "5"%string 2 in
  dev_write (ti_private ti_single) = None /\ snd r = 2 /\ ~ snd r < 0.
Proof. vm_compute. repeat split; try reflexivity. discriminate. Qed.

(** C6, as amended: on a target without write device a store to
    [write_delay] changes nothing in the context, neither [write_delay] nor
    the timer, and returns the count: the caller sees a successful write. *)
Theorem write_delay_store_without_write_device (mj : Z -> Z)
    (sc : string -> option Z) (jiffies uninit : Z) (dc : delay_c)
    (buf : string) (count : Z) :
  dev_write dc = None -> 0 <= count < 2 ^ 63 ->
  write_delay_store mj sc jiffies uninit dc buf count = (dc, count).
Proof.
  intros Hdev Hc. unfold write_delay_store. rewrite Hdev. f_equal.
  unfold s64. rewrite Z.mod_small; lia.
Qed.

Lemma write_delay_store_without_write_device_witness :
  write_delay_store msecs_to_jiffies_hz1000 sscanf_int 0 0
    (ti_private ti_single) "5"%string 2
  = (ti_private ti_single, 2).
Proof.
  apply (write_delay_store_without_write_device msecs_to_jiffies_hz1000
           sscanf_int 0 0 (ti_private ti_single) "5"%string 2).
  - reflexivity.
  - vm_compute. split; [discriminate | reflexivity].
Defined.

(** ** Runs on concrete inputs *)

(** C1, counterexample: a write without data on the target with a write
    device at offset 100 goes to the write device but keeps sector 10, while
    base offset plus offset within the target is 110. *)
Lemma delay_map_empty_write_keeps_sector :
  let b' := snd (fst (delay_map msecs_to_jiffies_hz1000 0 ti_dual
                        empty_write_bio)) in
  bio_data_dir empty_write_bio = WRITE
  /\ dev_write (ti_private ti_dual) = Some dev_b
  /\ bi_bdev b' = bdev dev_b
  /\ bi_sector b' = 10
  /\ start_write (ti_private ti_dual)
     + dm_target_offset ti_dual (bi_sector empty_write_bio) = 110.
Proof. vm_compute. repeat split; reflexivity. Qed.

Lemma delay_map_selects_endpoint_witness :
  let b' := snd (fst (delay_map msecs_to_jiffies_hz1000 0 ti_dual
                        write_bio)) in
  bi_bdev b' = bdev dev_b /\ bi_sector b' = 110.
Proof.
  assert (Hb : 0 <= ti_begin ti_dual <= bi_sector write_bio)
    by (vm_compute; split; discriminate).
  destruct (proj1 (delay_map_selects_endpoint msecs_to_jiffies_hz1000 0
                     ti_dual write_bio Hb) dev_b eq_refl eq_refl)
    as (H1 & _ & H3).
  split; [exact H1|].
  apply H3.
  - vm_compute. discriminate.
  - vm_compute. discriminate.
  - vm_compute. reflexivity.
Defined.

Lemma delay_map_sector_translation_witness :
  bi_sector (snd (fst (delay_map msecs_to_jiffies_hz1000 0 ti_dual
                         empty_write_bio))) = 10
  /\ bi_sector (snd (fst (delay_map msecs_to_jiffies_hz1000 0 ti_dual
                            read_bio))) = 8.
Proof.
  split.
  - refine (proj2 (proj1 (delay_map_sector_translation
                            msecs_to_jiffies_hz1000 0 ti_dual empty_write_bio)
                     _ _) _).
    + reflexivity.
    + discriminate.
    + reflexivity.
  - refine (proj2 (delay_map_sector_translation
                     msecs_to_jiffies_hz1000 0 ti_dual read_bio) _).
    left. discriminate.
Defined.

Lemma delay_bio_bypass_witness :
  delay_bio msecs_to_jiffies_hz1000 5 (ti_private ti_dual) 0 read_bio
  = (ti_private ti_dual, DM_MAPIO_REMAPPED).
Proof.
  apply (delay_bio_bypass msecs_to_jiffies_hz1000 5 (ti_private ti_dual) 0
           read_bio).
  left. reflexivity.
Defined.

Lemma flush_delayed_bios_drains_witness :
  snd (flush_delayed_bios 200 dc_two_queued 0) = [write_bio]
  /\ map expires (delayed_bios (fst (flush_delayed_bios 200 dc_two_queued 0)))
     = [207].
Proof.
  assert (Hwin : forall d, In d (delayed_bios dc_two_queued) ->
                           - 2 ^ 63 <= 200 - expires d < 2 ^ 63).
  { intros d [<- | [<- | []]]; vm_compute; split;
      (discriminate || reflexivity). }
  destruct (flush_delayed_bios_drains 200 dc_two_queued 0 Hwin)
    as (H1 & H2 & _).
  split; [exact H1|]. rewrite H2. reflexivity.
Defined.

Lemma store_keeps_queued_expiries_witness :
  read_delay
    (fst (read_delay_store msecs_to_jiffies_hz1000 sscanf_int 0 0
            dc_two_queued "5000"%string 4)) = 5000
  /\ delayed_bios
       (fst (read_delay_store msecs_to_jiffies_hz1000 sscanf_int 0 0
               dc_two_queued "5000"%string 4))
     = delayed_bios dc_two_queued.
Proof.
  destruct (store_keeps_queued_expiries msecs_to_jiffies_hz1000 sscanf_int
              0 0 dc_two_queued "5000"%string 4) as (H1 & _ & _ & H4).
  split; [|exact H1].
  refine (proj1 (H4 5000 _ _)).
  - vm_compute. reflexivity.
  - vm_compute. split; [discriminate | reflexivity].
Defined.

(** ** Deferred admission *)

(** X1: with a non-zero delay on a target that may delay, [delay_bio]
    returns [DM_MAPIO_SUBMITTED], appends exactly one entry for the bio at
    the tail of the queue with expiry [jiffies + msecs_to_jiffies(delay)],
    adds one to the counter of the bio's direction and leaves the other, and
    leaves the timer pending for a time no later than that expiry. *)
Theorem delay_bio_defers (mj : Z -> Z) (jiffies : Z) (dc : delay_c)
    (delay : Z) (b : bio) :
  delay <> 0 -> may_delay dc <> 0 ->
  let r := delay_bio mj jiffies dc delay b in
  let e := u64 (jiffies + mj (u32 delay)) in
  snd r = DM_MAPIO_SUBMITTED
  /\ delayed_bios (fst r)
     = delayed_bios dc ++ [{| info_bio := b; expires := e |}]
  /\ (bio_data_dir b = WRITE ->
      writes (fst r) = u32 (writes dc + 1) /\ reads (fst r) = reads dc)
  /\ (bio_data_dir b = READ ->
      reads (fst r) = u32 (reads dc + 1) /\ writes (fst r) = writes dc)
  /\ timer_pending (delay_timer (fst r)) = true
  /\ timer_expires (delay_timer (fst r)) <= e.
Proof.
  intros Hd Hm. cbv zeta. unfold delay_bio.
  destruct (Z.eqb_spec delay 0) as [|_]; [contradiction|].
  destruct (Z.eqb_spec (may_delay dc) 0) as [|_]; [contradiction|].
  cbn [orb fst snd].
  match goal with
  | |- context [queue_timeout ?x ?t] =>
      destruct (queue_timeout_frame x t) as (Hq & Hr & Hw & _);
      destruct (queue_timeout_armed x t) as (Hp & Hle & _)
  end.
  rewrite Hq, Hr, Hw.
  split; [reflexivity|]. split; [now destruct (bio_data_dir b =? WRITE)|].
  split; [intros Hdir; rewrite Hdir; split; reflexivity|].
  split; [intros Hdir; rewrite Hdir; split; reflexivity|].
  split; assumption.
Qed.

Lemma delay_bio_defers_witness :
  snd (delay_bio msecs_to_jiffies_hz1000 5 (ti_private ti_dual) 200
         write_bio) = DM_MAPIO_SUBMITTED
  /\ map expires
       (delayed_bios
          (fst (delay_bio msecs_to_jiffies_hz1000 5 (ti_private ti_dual) 200
                  write_bio))) = [205].
Proof.
  destruct (delay_bio_defers msecs_to_jiffies_hz1000 5 (ti_private ti_dual)
              200 write_bio) as (H1 & H2 & _).
  - discriminate.
  - discriminate.
  - split; [exact H1|]. rewrite H2. reflexivity.
Defined.

(** ** Nothing is lost, nothing is released twice *)

Lemma flushed_kept_perm (j fa : Z) (q : list dm_delay_info) :
  Permutation q
    (filter (flushes j fa) q ++ filter (fun d => negb (flushes j fa d)) q).
Proof.
  induction q as [|d q IH]; cbn [filter app]; [apply perm_nil|].
  destruct (flushes j fa d); cbn [negb app].
  - apply perm_skip, IH.
  - apply Permutation_cons_app, IH.
Qed.

Lemma flush_delayed_bios_perm (j : Z) (dc : delay_c) (fa : Z) :
  Permutation (map info_bio (delayed_bios dc))
    (snd (flush_delayed_bios j dc fa)
     ++ map info_bio (delayed_bios (fst (flush_delayed_bios j dc fa)))).
Proof.
  rewrite flush_delayed_bios_queue, flush_scan_list.
  unfold flush_delayed_bios. cbn [snd]. rewrite flush_scan_bios.
  rewrite <- map_app. apply Permutation_map, flushed_kept_perm.
Qed.

(** X2: whatever the time and the flag, the bios that
    [flush_delayed_bios] returns together with the bios of the entries it
    leaves queued are the bios that were queued, each as often as it was
    queued; the numbers of returned and of kept entries add up to the
    number queued; and an entry is returned exactly when [flush_all] is set
    or [time_after_eq(jiffies, expires)] holds, so with [flush_all] clear no
    bio leaves before its expiry. *)
Theorem flush_delayed_bios_conserves (jiffies : Z) (dc : delay_c)
    (flush_all : Z) :
  let r := flush_delayed_bios jiffies dc flush_all in
  Permutation (map info_bio (delayed_bios dc))
    (snd r ++ map info_bio (delayed_bios (fst r)))
  /\ (List.length (snd r) + List.length (delayed_bios (fst r)))%nat
     = List.length (delayed_bios dc)
  /\ snd r
     = map info_bio
         (filter
            (fun d => negb (flush_all =? 0)
                      || time_after_eq jiffies (expires d))
            (delayed_bios dc))
  /\ delayed_bios (fst r)
     = filter
         (fun d => negb (negb (flush_all =? 0)
                         || time_after_eq jiffies (expires d)))
         (delayed_bios dc).
Proof.
  cbv zeta.
  pose proof (flush_delayed_bios_perm jiffies dc flush_all) as Hp.
  split; [exact Hp|]. split.
  - apply Permutation_length in Hp.
    rewrite length_app, !length_map in Hp. symmetry. exact Hp.
  - split.
    + unfold flush_delayed_bios. cbn [snd]. apply flush_scan_bios.
    + rewrite flush_delayed_bios_queue. apply flush_scan_list.
Qed.

Lemma step_io_conserves (mj : Z -> Z) (sc : string -> option Z)
    (e : event) (ti ti' : dm_target) (qd rl : list bio) :
  step_io mj sc e ti = Some (ti', qd, rl) ->
  Permutation (map info_bio (delayed_bios (ti_private ti)) ++ qd)
    (rl ++ map info_bio (delayed_bios (ti_private ti'))).
Proof.
  intros H.
  destruct e as [j b | j | j | j | | j u buf n | j u buf n];
    unfold step_io in H.
  - pose proof (delay_map_queue mj j ti b) as Hq. cbv zeta in Hq.
    destruct (delay_map mj j ti b) as [[ti1 b1] r]. cbn [fst snd] in Hq.
    apply some_eq in H. inversion H; subst ti' qd rl. clear H.
    destruct Hq as [[-> ->] | [-> ->]]; cbn [app].
    + rewrite app_nil_r. reflexivity.
    + rewrite map_app. reflexivity.
  - unfold step in H. destruct (_ && _); [|discriminate].
    apply some_eq in H. inversion H; subst ti' qd rl.
    rewrite app_nil_r. reflexivity.
  - destruct (flush_work (ti_private ti)); [|discriminate].
    pose proof (flush_delayed_bios_perm j
                  (set_flush_work (ti_private ti) false) 0) as Hc.
    unfold flush_expired_bios in H.
    destruct (flush_delayed_bios j (set_flush_work (ti_private ti) false) 0)
      as [dc1 bios]. cbn [fst snd] in Hc.
    apply some_eq in H. inversion H; subst ti' qd rl.
    rewrite app_nil_r, flush_bios_id. exact Hc.
  - unfold delay_presuspend in H.
    match type of H with
    | context [flush_delayed_bios j ?x 1] =>
        pose proof (flush_delayed_bios_perm j x 1) as Hc;
        destruct (flush_delayed_bios j x 1) as [dc1 bios]
    end.
    cbn [fst snd] in Hc.
    apply some_eq in H. inversion H; subst ti' qd rl.
    rewrite app_nil_r, flush_bios_id. exact Hc.
  - unfold step in H. apply some_eq in H. inversion H; subst ti' qd rl.
    rewrite app_nil_r. reflexivity.
  - unfold step in H. apply some_eq in H. inversion H; subst ti' qd rl.
    cbn [set_private ti_private]. unfold read_delay_store.
    destruct (store_delay_frame mj sc j u (ti_private ti) read_delay_ptr
                buf n) as (-> & _).
    rewrite app_nil_r. reflexivity.
  - unfold step in H. apply some_eq in H. inversion H; subst ti' qd rl.
    cbn [set_private ti_private]. unfold write_delay_store.
    rewrite app_nil_r.
    destruct (dev_write (ti_private ti)); [|reflexivity].
    destruct (store_delay_frame mj sc j u (ti_private ti) write_delay_ptr
                buf n) as (-> & _).
    reflexivity.
Qed.

Lemma run_io_conserves (mj : Z -> Z) (sc : string -> option Z)
    (evs : list event) (ti ti' : dm_target) (qd rl : list bio) :
  run_io mj sc evs ti = Some (ti', qd, rl) ->
  Permutation (map info_bio (delayed_bios (ti_private ti)) ++ qd)
    (rl ++ map info_bio (delayed_bios (ti_private ti'))).
Proof.
  revert ti qd rl. induction evs as [|e evs IH]; intros ti qd rl H;
    simpl in H.
  - apply some_eq in H. inversion H; subst ti' qd rl.
    rewrite app_nil_r. reflexivity.
  - destruct (step_io mj sc e ti) as [[[ti1 q1] r1]|] eqn:E; [|discriminate].
    destruct (run_io mj sc evs ti1) as [[[ti2 q2] r2]|] eqn:E2;
      [|discriminate].
    apply some_eq in H. inversion H; subst ti' qd rl. clear H.
    pose proof (step_io_conserves mj sc e ti ti1 q1 r1 E) as H1.
    pose proof (IH ti1 q2 r2 E2) as H2.
    rewrite (app_assoc _ q1 q2), <- (app_assoc r1 r2).
    apply Permutation_trans
      with ((r1 ++ map info_bio (delayed_bios (ti_private ti1))) ++ q2);
      [apply Permutation_app_tail; exact H1|].
    rewrite <- app_assoc.
    apply Permutation_app_head. exact H2.
Qed.

Lemma step_io_step (mj : Z -> Z) (sc : string -> option Z) (e : event)
    (ti : dm_target) :
  option_map (fun x => fst (fst x)) (step_io mj sc e ti) = step mj sc e ti.
Proof.
  destruct e as [j b | j | j | j | | j u buf n | j u buf n];
    unfold step_io; try (destruct (step mj sc _ ti); reflexivity).
  - unfold step. now destruct (delay_map mj j ti b) as [[ti1 b1] r].
  - unfold step. destruct (flush_work (ti_private ti)); [|reflexivity].
    now destruct (flush_expired_bios j _).
  - unfold step. now destruct (delay_presuspend j ti).
Qed.

Lemma run_io_run (mj : Z -> Z) (sc : string -> option Z)
    (evs : list event) (ti : dm_target) :
  option_map (fun x => fst (fst x)) (run_io mj sc evs ti) = run mj sc evs ti.
Proof.
  revert ti. induction evs as [|e evs IH]; intros ti; simpl; [reflexivity|].
  rewrite <- (step_io_step mj sc e ti).
  destruct (step_io mj sc e ti) as [[[ti1 q1] r1]|]; simpl; [|reflexivity].
  rewrite <- (IH ti1).
  now destruct (run_io mj sc evs ti1) as [[[ti2 q2] r2]|].
Qed.

(** X3: over any sequence of mappings, timer expiries, flushes, suspends,
    resumes and stores on a constructed target, the bios that were put on
    the queue are, each as often as it was queued, the bios handed to
    [generic_make_request] together with the bios still queued: no deferred
    bio is dropped and none is released twice.  The states of such a run are
    those of [run]. *)
Theorem run_conserves_bios (mj : Z -> Z) (sc : string -> option Z)
    (raw : delay_c) (dev : dm_dev) (start delay : Z)
    (w : option (dm_dev * Z * Z)) (first : Z) (evs : list event)
    (ti : dm_target) (deferred released : list bio) :
  run_io mj sc evs
    {| ti_begin := first; ti_private := delay_ctr raw dev start delay w |}
  = Some (ti, deferred, released) ->
  Permutation deferred
    (released ++ map info_bio (delayed_bios (ti_private ti)))
  /\ run mj sc evs
       {| ti_begin := first; ti_private := delay_ctr raw dev start delay w |}
     = Some ti.
Proof.
  intros H. split.
  - apply (run_io_conserves mj sc evs _ ti deferred released H).
  - rewrite <- run_io_run, H. reflexivity.
Qed.

Lemma run_conserves_bios_witness :
  let b := remap_read ti_single read_bio in
  Permutation [b; b]
    ([b] ++ map info_bio (delayed_bios (ti_private ti_after_flush)))
  /\ run msecs_to_jiffies_hz1000 sscanf_int two_reads_then_flush ti_single
     = Some ti_after_flush.
Proof.
  apply (run_conserves_bios msecs_to_jiffies_hz1000 sscanf_int raw_context
           dev_a 0 10 None 0 two_reads_then_flush ti_after_flush).
  vm_compute. reflexivity.
Defined.

(** ** Suspended targets *)

Lemma delay_presuspend_may_delay (j : Z) (ti : dm_target) :
  may_delay (ti_private (fst (delay_presuspend j ti))) = 0.
Proof.
  rewrite delay_presuspend_private. unfold flush_delayed_bios. cbn [fst].
  destruct (negb _); [|reflexivity].
  unfold queue_timeout. now destruct (negb _ || _).
Qed.

Lemma presuspend_queue_empty (j : Z) (ti : dm_target) :
  delayed_bios (ti_private (fst (delay_presuspend j ti))) = [].
Proof.
  rewrite delay_presuspend_private, flush_delayed_bios_queue, flush_scan_list.
  match goal with |- filter _ ?q = [] => generalize q end.
  intros q. induction q as [|d q IH]; [reflexivity|].
  cbn [filter]. change (flushes j 1 d) with true. exact IH.
Qed.

Lemma delay_map_bypass (mj : Z -> Z) (j : Z) (ti : dm_target) (b : bio) :
  may_delay (ti_private ti) = 0 ->
  snd (delay_map mj j ti b) = DM_MAPIO_REMAPPED
  /\ ti_private (fst (fst (delay_map mj j ti b))) = ti_private ti.
Proof.
  intros Hm.
  assert (Hb : forall delay b', delay_bio mj j (ti_private ti) delay b'
                                = (ti_private ti, DM_MAPIO_REMAPPED)).
  { intros delay b'. unfold delay_bio. rewrite Hm.
    now rewrite orb_true_r. }
  destruct (Z.eqb_spec (bio_data_dir b) WRITE) as [Hw | Hw].
  - destruct (dev_write (ti_private ti)) as [dw|] eqn:Hdev.
    + rewrite (delay_map_write_path mj j ti b dw Hw Hdev), Hb.
      split; reflexivity.
    + rewrite (delay_map_read_path mj j ti b (or_intror Hdev)), Hb.
      split; reflexivity.
  - rewrite (delay_map_read_path mj j ti b (or_introl Hw)), Hb.
    split; reflexivity.
Qed.

(** X4: from [delay_presuspend] on, and whatever is stored to the delays
    meanwhile, every bio that [delay_map] sees is remapped and returned with
    [DM_MAPIO_REMAPPED]; the queue stays empty and the context is not
    changed by the mapping.  After [delay_resume] a bio with a non-zero
    selected delay is deferred again. *)
Theorem suspended_target_never_queues (mj : Z -> Z)
    (sc : string -> option Z) (j j' : Z) (ti : dm_target)
    (stores : list event) (ti1 : dm_target) (b : bio) :
  forallb is_store stores = true ->
  run mj sc stores (fst (delay_presuspend j ti)) = Some ti1 ->
  (snd (delay_map mj j' ti1 b) = DM_MAPIO_REMAPPED
   /\ ti_private (fst (fst (delay_map mj j' ti1 b))) = ti_private ti1
   /\ delayed_bios (ti_private ti1) = [])
  /\ (u32 (selected_delay (ti_private ti1) b) <> 0 ->
      snd (delay_map mj j' (delay_resume ti1) b) = DM_MAPIO_SUBMITTED).
Proof.
  intros Hst Hrun.
  assert (Hinv : may_delay (ti_private ti1) = 0
                 /\ delayed_bios (ti_private ti1) = []).
  { revert Hrun.
    assert (H0 : may_delay (ti_private (fst (delay_presuspend j ti))) = 0
                 /\ delayed_bios (ti_private (fst (delay_presuspend j ti)))
                    = []).
    { split; [apply delay_presuspend_may_delay|].
      apply (presuspend_queue_empty j ti). }
    revert H0. generalize (fst (delay_presuspend j ti)). revert Hst.
    induction stores as [|e stores IH]; intros Hst t0 H0 Hrun;
      simpl in Hrun.
    - apply some_eq in Hrun. now subst ti1.
    - simpl in Hst. apply andb_true_iff in Hst. destruct Hst as [He Hst].
      destruct (step mj sc e t0) as [t1|] eqn:E; [|discriminate].
      apply (IH Hst t1); [|exact Hrun].
      destruct H0 as [Hm Hq].
      destruct e as [? ? | ? | ? | ? | | j0 u buf n | j0 u buf n];
        try discriminate He; unfold step in E; apply some_eq in E; subst t1;
        cbn [set_private ti_private].
      + unfold read_delay_store, store_delay.
        destruct (_ <? 0); cbn [fst]; [now split|].
        unfold queue_timeout. destruct (negb _ || _); now split.
      + unfold write_delay_store.
        destruct (dev_write (ti_private t0)); [|now split].
        unfold store_delay.
        destruct (_ <? 0); cbn [fst]; [now split|].
        unfold queue_timeout. destruct (negb _ || _); now split. }
  destruct Hinv as [Hm Hq]. split.
  - destruct (delay_map_bypass mj j' ti1 b Hm) as [H1 H2].
    repeat split; assumption.
  - intros Hsel.
    destruct (delay_map_queue mj j' (delay_resume ti1) b) as [[H1 H2] | [H1 _]];
      [|exact H1].
    exfalso. revert H1.
    assert (Hb : forall delay b',
               u32 delay <> 0 ->
               snd (delay_bio mj j' (ti_private (delay_resume ti1)) delay b')
               = DM_MAPIO_SUBMITTED).
    { intros delay b' Hd. unfold delay_bio. cbn [delay_resume set_private
        ti_private set_may_delay may_delay].
      destruct (Z.eqb_spec delay 0) as [->|_]; [now elim Hd|]. reflexivity. }
    unfold selected_delay in Hsel.
    destruct (Z.eqb_spec (bio_data_dir b) WRITE) as [Hw | Hw].
    + destruct (dev_write (ti_private ti1)) as [dw|] eqn:Hdev.
      * rewrite (delay_map_write_path mj j' (delay_resume ti1) b dw Hw Hdev).
        cbn [snd]. rewrite Hb; [discriminate|]. now rewrite u32_s32.
      * rewrite (delay_map_read_path mj j' (delay_resume ti1) b
                   (or_intror Hdev)).
        cbn [snd]. rewrite Hb; [discriminate|]. now rewrite u32_s32.
    + rewrite (delay_map_read_path mj j' (delay_resume ti1) b
                 (or_introl Hw)).
      cbn [snd]. rewrite Hb; [discriminate|]. now rewrite u32_s32.
Qed.

Lemma suspended_target_never_queues_witness :
  let ti0 := fst (delay_presuspend 20 ti_after_flush) in
  let ti1 :=
    set_private ti0
      (fst (read_delay_store msecs_to_jiffies_hz1000 sscanf_int 21 0
              (ti_private ti0) "7"%string 1)) in
  snd (delay_map msecs_to_jiffies_hz1000 22 ti1 read_bio) = DM_MAPIO_REMAPPED
  /\ snd (delay_map msecs_to_jiffies_hz1000 22 (delay_resume ti1) read_bio)
     = DM_MAPIO_SUBMITTED.
Proof.
  cbv zeta.
  destruct (suspended_target_never_queues msecs_to_jiffies_hz1000 sscanf_int
              20 22 ti_after_flush
              [ev_read_delay_store 21 0 "7"%string 1]
              (set_private (fst (delay_presuspend 20 ti_after_flush))
                 (fst (read_delay_store msecs_to_jiffies_hz1000 sscanf_int
                         21 0
                         (ti_private (fst (delay_presuspend 20
                                             ti_after_flush)))
                         "7"%string 1)))
              read_bio) as [(H1 & _) H2].
  - reflexivity.
  - reflexivity.
  - split; [exact H1|]. apply H2. vm_compute. discriminate.
Defined.

(** X5: suspending a target reached by any run of a constructed target
    leaves both counters at zero, whatever they counted before. *)
Theorem delay_presuspend_resets_counters (mj : Z -> Z)
    (sc : string -> option Z) (raw : delay_c) (dev : dm_dev)
    (start delay : Z) (w : option (dm_dev * Z * Z)) (first : Z)
    (evs : list event) (ti : dm_target) (jiffies : Z) :
  run mj sc evs
    {| ti_begin := first; ti_private := delay_ctr raw dev start delay w |}
  = Some ti ->
  reads (ti_private (fst (delay_presuspend jiffies ti))) = 0
  /\ writes (ti_private (fst (delay_presuspend jiffies ti))) = 0.
Proof.
  intros Hrun.
  assert (H0 : counters_ok (delay_ctr raw dev start delay w))
    by (split; reflexivity).
  pose proof (run_counters mj sc evs
                {| ti_begin := first;
                   ti_private := delay_ctr raw dev start delay w |}
                ti H0 Hrun) as Hc.
  pose proof (presuspend_queue_empty jiffies ti) as Hq.
  rewrite delay_presuspend_private in *.
  match goal with
  | |- context [flush_delayed_bios jiffies ?x 1] =>
      destruct (flush_delayed_bios_counters jiffies x 1 Hc) as [Hr Hw]
  end.
  rewrite Hr, Hw, Hq. split; reflexivity.
Qed.

Lemma delay_presuspend_resets_counters_witness :
  reads (ti_private ti_after_flush) = 1
  /\ reads (ti_private (fst (delay_presuspend 20 ti_after_flush))) = 0
  /\ writes (ti_private (fst (delay_presuspend 20 ti_after_flush))) = 0.
Proof.
  split; [reflexivity|].
  apply (delay_presuspend_resets_counters msecs_to_jiffies_hz1000 sscanf_int
           raw_context dev_a 0 10 None 0 two_reads_then_flush ti_after_flush
           20).
  vm_compute. reflexivity.
Defined.

(** ** What a run never changes *)

Lemma queue_timeout_config (dc : delay_c) (e : Z) :
  dev_read (queue_timeout dc e) = dev_read dc
  /\ start_read (queue_timeout dc e) = start_read dc
  /\ dev_write (queue_timeout dc e) = dev_write dc
  /\ start_write (queue_timeout dc e) = start_write dc
  /\ read_delay (queue_timeout dc e) = read_delay dc
  /\ write_delay (queue_timeout dc e) = write_delay dc
  /\ may_delay (queue_timeout dc e) = may_delay dc.
Proof.
  unfold queue_timeout.
  destruct (negb (timer_pending (delay_timer dc)) || _); simpl;
    repeat split; reflexivity.
Qed.

Lemma delay_bio_config (mj : Z -> Z) (j : Z) (dc : delay_c) (delay : Z)
    (b : bio) :
  same_binding (fst (delay_bio mj j dc delay b)) dc
  /\ same_delays (fst (delay_bio mj j dc delay b)) dc.
Proof.
  unfold delay_bio, same_binding, same_delays.
  destruct ((delay =? 0) || (may_delay dc =? 0)); cbn [fst];
    [repeat split; reflexivity|].
  match goal with
  | |- context [queue_timeout ?x ?t] =>
      destruct (queue_timeout_config x t) as (-> & -> & -> & -> & -> & -> & _)
  end.
  destruct (bio_data_dir b =? WRITE); repeat split; reflexivity.
Qed.

Lemma flush_delayed_bios_config (j : Z) (dc : delay_c) (fa : Z) :
  same_binding (fst (flush_delayed_bios j dc fa)) dc
  /\ same_delays (fst (flush_delayed_bios j dc fa)) dc.
Proof.
  unfold flush_delayed_bios, same_binding, same_delays. cbn [fst].
  destruct (negb _); [|repeat split; reflexivity].
  match goal with
  | |- context [queue_timeout ?x ?t] =>
      destruct (queue_timeout_config x t) as (-> & -> & -> & -> & -> & -> & _)
  end.
  repeat split; reflexivity.
Qed.

Lemma store_delay_binding (mj : Z -> Z) (sc : string -> option Z)
    (j u : Z) (dc : delay_c) (p : delay_ptr) (buf : string) (count : Z) :
  same_binding (fst (store_delay mj sc j u dc p buf count)) dc.
Proof.
  unfold store_delay, same_binding.
  destruct (_ <? 0); cbn [fst]; [repeat split; reflexivity|].
  match goal with
  | |- context [queue_timeout ?x ?t] =>
      destruct (queue_timeout_config x t) as (-> & -> & -> & -> & _)
  end.
  destruct p; repeat split; reflexivity.
Qed.

Lemma step_config (mj : Z -> Z) (sc : string -> option Z) (e : event)
    (ti ti' : dm_target) :
  step mj sc e ti = Some ti' ->
  ti_begin ti' = ti_begin ti
  /\ same_binding (ti_private ti') (ti_private ti)
  /\ (is_store e = false -> same_delays (ti_private ti') (ti_private ti)).
Proof.
  intros H.
  destruct e as [j b | j | j | j | | j u buf n | j u buf n];
    unfold step in H.
  - apply some_eq in H; subst ti'.
    assert (Hb : ti_begin (fst (fst (delay_map mj j ti b))) = ti_begin ti).
    { destruct (Z.eqb_spec (bio_data_dir b) WRITE) as [Hw | Hw].
      - destruct (dev_write (ti_private ti)) as [dw|] eqn:Hdev.
        + now rewrite (delay_map_write_path mj j ti b dw Hw Hdev).
        + now rewrite (delay_map_read_path mj j ti b (or_intror Hdev)).
      - now rewrite (delay_map_read_path mj j ti b (or_introl Hw)). }
    destruct (delay_map_private mj j ti b) as (delay & b' & ->).
    destruct (delay_bio_config mj j (ti_private ti) delay b') as [H1 H2].
    auto.
  - destruct (_ && _); [|discriminate]. apply some_eq in H; subst ti'.
    repeat split; reflexivity.
  - destruct (flush_work (ti_private ti)); [|discriminate].
    apply some_eq in H; subst ti'. cbn [set_private ti_private ti_begin].
    rewrite flush_expired_bios_fst.
    destruct (flush_delayed_bios_config j
                (set_flush_work (ti_private ti) false) 0) as [H1 H2].
    auto.
  - apply some_eq in H; subst ti'.
    assert (Hb : ti_begin (fst (delay_presuspend j ti)) = ti_begin ti).
    { unfold delay_presuspend. now destruct (flush_delayed_bios j _ 1). }
    rewrite delay_presuspend_private.
    match goal with
    | |- context [flush_delayed_bios j ?x 1] =>
        destruct (flush_delayed_bios_config j x 1) as [H1 H2]
    end.
    auto.
  - apply some_eq in H; subst ti'. repeat split; reflexivity.
  - apply some_eq in H; subst ti'. cbn [set_private ti_private ti_begin].
    split; [reflexivity|]. split; [|discriminate].
    apply store_delay_binding.
  - apply some_eq in H; subst ti'. cbn [set_private ti_private ti_begin].
    split; [reflexivity|]. split; [|discriminate].
    unfold write_delay_store.
    destruct (dev_write (ti_private ti));
      [|repeat split; reflexivity].
    apply store_delay_binding.
Qed.

(** X6: no run changes the first sector, the devices or the offsets of a
    target, and a run without stores leaves both delays as they were. *)
Theorem run_keeps_binding (mj : Z -> Z) (sc : string -> option Z)
    (evs : list event) (ti ti' : dm_target) :
  run mj sc evs ti = Some ti' ->
  binding ti' = binding ti
  /\ (existsb is_store evs = false ->
      read_delay (ti_private ti') = read_delay (ti_private ti)
      /\ write_delay (ti_private ti') = write_delay (ti_private ti)).
Proof.
  revert ti. induction evs as [|e evs IH]; intros ti H; simpl in H.
  - apply some_eq in H; subst ti'. split; [reflexivity|]. now split.
  - destruct (step mj sc e ti) as [ti1|] eqn:E; [|discriminate].
    destruct (step_config mj sc e ti ti1 E) as (Hb & (H1 & H2 & H3 & H4) & Hd).
    destruct (IH ti1 H) as [IHb IHd]. split.
    + rewrite IHb. unfold binding. now rewrite Hb, H1, H2, H3, H4.
    + intros Hex. simpl in Hex. apply orb_false_iff in Hex.
      destruct Hex as [He Hex].
      destruct (IHd Hex) as [-> ->]. exact (Hd He).
Qed.

Lemma run_keeps_binding_witness :
  binding ti_after_flush = binding ti_single
  /\ read_delay (ti_private ti_after_flush) = 10.
Proof.
  destruct (run_keeps_binding msecs_to_jiffies_hz1000 sscanf_int
              two_reads_then_flush ti_single ti_after_flush) as [H1 H2].
  - vm_compute. reflexivity.
  - split; [exact H1|]. apply H2. reflexivity.
Defined.

(** ** Stores and the timer *)

(** X7: every store that reaches [store_delay] leaves the timer pending for
    a time no later than [jiffies + msecs_to_jiffies] of the delay it stored;
    a timer that was pending is never moved to a later time, and is left as
    it was unless the new time is earlier. *)
Theorem store_delay_rearms (mj : Z -> Z) (sc : string -> option Z)
    (jiffies uninit : Z) (dc : delay_c) (p : delay_ptr) (buf : string)
    (count : Z) :
  let dc' := fst (store_delay mj sc jiffies uninit dc p buf count) in
  let e := u64 (jiffies + mj (load_delay dc' p)) in
  timer_pending (delay_timer dc') = true
  /\ timer_expires (delay_timer dc') <= e
  /\ (timer_pending (delay_timer dc) = true ->
      timer_expires (delay_timer dc') <= timer_expires (delay_timer dc)
      /\ (timer_expires (delay_timer dc) <= e ->
          delay_timer dc' = delay_timer dc)).
Proof.
  cbv zeta.
  destruct (store_delay_value mj sc jiffies uninit dc p buf count)
    as [Hv _].
  rewrite Hv. unfold store_delay.
  set (nd := match sc buf with Some v => u32 v | None => u32 uninit end).
  assert (Hnd : 0 <= nd < 2 ^ 32).
  { unfold nd. destruct (sc buf); apply u32_range. }
  destruct (Z.ltb_spec nd 0) as [Hneg | _]; [lia|]. cbn [fst].
  assert (Ht : delay_timer (store_ptr dc p nd) = delay_timer dc)
    by now destruct p.
  destruct (queue_timeout_armed (store_ptr dc p nd)
              (u64 (jiffies + mj nd))) as (Hp & Hle & Hmono).
  rewrite Ht in Hmono.
  split; [exact Hp|]. split; [exact Hle|]. intros Hpend.
  split; [exact (Hmono Hpend)|]. intros Hlater.
  unfold queue_timeout, timer_pending. rewrite Ht.
  unfold timer_pending in Hpend. rewrite Hpend.
  destruct (Z.ltb_spec (u64 (jiffies + mj nd))
              (timer_expires (delay_timer dc))); [lia|].
  exact Ht.
Qed.

Lemma store_delay_rearms_witness :
  timer_expires
    (delay_timer
       (fst (store_delay msecs_to_jiffies_hz1000 sscanf_int 11 0
               (ti_private ti_after_flush) read_delay_ptr "1"%string 1)))
  <= 13.
Proof.
  apply (store_delay_rearms msecs_to_jiffies_hz1000 sscanf_int 11 0
           (ti_private ti_after_flush) read_delay_ptr "1"%string 1).
  reflexivity.
Defined.

(** ** Flushing twice *)

Lemma flush_loop_kept (j fa : Z) (l : list dm_delay_info) (st : flush_state) :
  (forall d, In d l -> flushes j fa d = false) ->
  flush_loop j fa l st
  = {| fs_list := fs_list st ++ l;
       fs_reads := fs_reads st;
       fs_writes := fs_writes st;
       fs_flush_bios := fs_flush_bios st;
       fs_start_timer := fs_start_timer (flush_loop j fa l st);
       fs_next_expires := fs_next_expires (flush_loop j fa l st) |}.
Proof.
  revert st. induction l as [|d l IH]; intros st H.
  - simpl. rewrite app_nil_r. now destruct st.
  - cbn [flush_loop]. rewrite IH by (intros d' Hd'; apply H; now right).
    assert (Hd : flushes j fa d = false) by (apply H; now left).
    unfold flush_step at 1 2 3 4. unfold flushes in Hd. rewrite Hd.
    cbn [fs_list fs_reads fs_writes fs_flush_bios].
    now rewrite <- app_assoc.
Qed.

Lemma flush_loop_timer_kept (j fa : Z) (l : list dm_delay_info)
    (st st' : flush_state) :
  fs_start_timer st = fs_start_timer st' ->
  fs_next_expires st = fs_next_expires st' ->
  fs_start_timer (flush_loop j fa l st)
  = fs_start_timer
      (flush_loop j fa (filter (fun d => negb (flushes j fa d)) l) st')
  /\ fs_next_expires (flush_loop j fa l st)
     = fs_next_expires
         (flush_loop j fa (filter (fun d => negb (flushes j fa d)) l) st').
Proof.
  revert st st'. induction l as [|d l IH]; intros st st' Hs Hn.
  - now split.
  - cbn [flush_loop filter].
    destruct (flushes j fa d) eqn:Hd; cbn [negb].
    + apply IH; unfold flush_step; unfold flushes in Hd; rewrite Hd;
        assumption.
    + cbn [flush_loop].
      apply IH; unfold flush_step; unfold flushes in Hd; rewrite Hd;
        cbn [fs_start_timer fs_next_expires];
        [reflexivity | now rewrite Hs, Hn].
Qed.

Lemma set_queue_same (dc : delay_c) :
  set_queue dc (delayed_bios dc) (reads dc) (writes dc) = dc.
Proof. now destruct dc. Qed.

Lemma queue_timeout_twice (dc : delay_c) (e : Z) :
  queue_timeout (queue_timeout dc e) e = queue_timeout dc e.
Proof.
  unfold queue_timeout, timer_pending.
  destruct (negb (pending (delay_timer dc))
            || (e <? timer_expires (delay_timer dc))) eqn:Hc.
  - cbn [set_delay_timer delay_timer mod_timer pending timer_expires negb
           orb]. now rewrite Z.ltb_irrefl.
  - now rewrite Hc.
Qed.

(** X8: a second [flush_delayed_bios] at the same time and with the same
    flag returns no bio and leaves the context, with its queue, counters
    and timer, exactly as the first one left it. *)
Theorem flush_delayed_bios_twice (jiffies : Z) (dc : delay_c)
    (flush_all : Z) :
  let r := flush_delayed_bios jiffies dc flush_all in
  flush_delayed_bios jiffies (fst r) flush_all = (fst r, []).
Proof.
  cbv zeta.
  set (dc1 := fst (flush_delayed_bios jiffies dc flush_all)).
  assert (Hq : delayed_bios dc1
               = filter (fun d => negb (flushes jiffies flush_all d))
                   (delayed_bios dc)).
  { unfold dc1. now rewrite flush_delayed_bios_queue, flush_scan_list. }
  assert (Hkept : forall d, In d (delayed_bios dc1) ->
                            flushes jiffies flush_all d = false).
  { intros d Hd. rewrite Hq in Hd. apply filter_In in Hd.
    destruct Hd as [_ Hd]. now apply negb_true_iff in Hd. }
  pose proof (flush_loop_kept jiffies flush_all (delayed_bios dc1)
                {| fs_list := []; fs_reads := reads dc1;
                   fs_writes := writes dc1; fs_flush_bios := [];
                   fs_start_timer := 0; fs_next_expires := 0 |} Hkept) as Hst.
  fold (flush_scan jiffies dc1 flush_all) in Hst.
  cbn [fs_list fs_reads fs_writes fs_flush_bios app] in Hst.
  destruct (flush_loop_timer_kept jiffies flush_all (delayed_bios dc)
              {| fs_list := []; fs_reads := reads dc; fs_writes := writes dc;
                 fs_flush_bios := []; fs_start_timer := 0;
                 fs_next_expires := 0 |}
              {| fs_list := []; fs_reads := reads dc1;
                 fs_writes := writes dc1; fs_flush_bios := [];
                 fs_start_timer := 0; fs_next_expires := 0 |}
              eq_refl eq_refl) as [Hs Hn].
  rewrite <- Hq in Hs, Hn.
  fold (flush_scan jiffies dc flush_all) in Hs, Hn.
  fold (flush_scan jiffies dc1 flush_all) in Hs, Hn.
  unfold flush_delayed_bios at 1.
  rewrite Hst. cbn [fs_list fs_reads fs_writes fs_flush_bios fs_start_timer
                      fs_next_expires].
  rewrite set_queue_same, <- Hs, <- Hn. f_equal.
  unfold dc1, flush_delayed_bios. cbn [fst].
  destruct (negb (fs_start_timer (flush_scan jiffies dc flush_all) =? 0));
    [apply queue_timeout_twice | reflexivity].
Qed.

(** ** Decimal text, written and read back *)


Lemma append_assoc (a b c : string) :
  ((a ++ b) ++ c)%string = (a ++ (b ++ c))%string.
Proof. induction a as [|x a IH]; simpl; [reflexivity | now rewrite IH]. Qed.

Lemma length_append (a b : string) :
  String.length (a ++ b) = (String.length a + String.length b)%nat.
Proof. induction a as [|x a IH]; simpl; [reflexivity | now rewrite IH]. Qed.

Lemma digit_cases (d : Z) :
  0 <= d < 10 ->
  d = 0 \/ d = 1 \/ d = 2 \/ d = 3 \/ d = 4 \/ d = 5 \/ d = 6 \/ d = 7
  \/ d = 8 \/ d = 9.
Proof. lia. Qed.

Lemma strtoul_digit (d : Z) (r : string) (acc : Z) :
  0 <= d < 10 ->
  strtoul (String (digit_char d) r) acc = strtoul r (acc * 10 + d).
Proof.
  intros H. destruct (digit_cases d H) as [-> | [-> | [-> | [-> | [-> | [-> |
    [-> | [-> | [-> | ->]]]]]]]]]; reflexivity.
Qed.


Lemma sscanf_int_digit (d : Z) (r : string) :
  0 <= d < 10 ->
  sscanf_int (String (digit_char d) r)
  = Some (s32 (strtoul (String (digit_char d) r) 0)).
Proof.
  intros H. destruct (digit_cases d H) as [-> | [-> | [-> | [-> | [-> | [-> |
    [-> | [-> | [-> | ->]]]]]]]]]; reflexivity.
Qed.



Lemma dec_digits_head (f : nat) (n : Z) :
  0 <= n ->
  exists d s, 0 <= d < 10 /\ dec_digits (S f) n = String (digit_char d) s.
Proof.
  revert n. induction f as [|f IH]; intros n Hn; cbn [dec_digits].
  - destruct (Z.ltb_spec n 10).
    + exists n, EmptyString. split; [lia | reflexivity].
    + exists (n mod 10), EmptyString.
      split; [apply Z.mod_pos_bound; lia | reflexivity].
  - destruct (Z.ltb_spec n 10).
    + exists n, EmptyString. split; [lia | reflexivity].
    + destruct (IH (n / 10)) as (d & s & Hd & Hs);
        [apply Z.div_pos; lia|].
      cbn [dec_digits] in Hs. rewrite Hs.
      exists d. eexists. split; [exact Hd | reflexivity].
Qed.

Lemma dec_digits_strtoul (f : nat) (n : Z) (r : string) :
  0 <= n < 10 ^ Z.of_nat f ->
  strtoul (dec_digits f n ++ r) 0 = strtoul r n.
Proof.
  revert n r. induction f as [|f IH]; intros n r Hn.
  - simpl in *. replace n with 0 by lia. reflexivity.
  - cbn [dec_digits].
    destruct (Z.ltb_spec n 10).
    + cbn [append]. rewrite strtoul_digit by lia. f_equal.
    + rewrite append_assoc. cbn [append].
      rewrite IH.
      * rewrite strtoul_digit by (apply Z.mod_pos_bound; lia).
        f_equal. pose proof (Z.div_mod n 10). lia.
      * rewrite Nat2Z.inj_succ, Z.pow_succ_r in Hn by lia.
        split; [apply Z.div_pos; lia|].
        apply Z.div_lt_upper_bound; lia.
Qed.




Lemma sscanf_int_show_delay (v : Z) :
  0 <= v < 2 ^ 32 -> sscanf_int (fst (show_delay v)) = Some (s32 v).
Proof.
  intros Hv. unfold show_delay, sprintf_u. cbn [fst].
  rewrite u32_small by exact Hv.
  destruct (dec_digits_head 9 v) as (d & s & Hd & Hs); [lia|].
  pose proof (dec_digits_strtoul 10 v (String "010" EmptyString)) as Hval.
  rewrite Hs in *. cbn [append] in *.
  rewrite sscanf_int_digit by exact Hd.
  rewrite Hval by (simpl; lia). reflexivity.
Qed.

(** X9: the text that [read_delay_show] or [write_delay_show] gives for a
    delay, stored through [read_delay_store], or through
    [write_delay_store] on a target with a write device, leaves that delay
    in the context, for every value of an [unsigned]; and the show functions
    return the length of their text, digits and newline. *)
Theorem show_store_round_trip (mj : Z -> Z) (jiffies uninit : Z)
    (src dst : delay_c) (count : Z) :
  0 <= read_delay src < 2 ^ 32 -> 0 <= write_delay src < 2 ^ 32 ->
  read_delay
    (fst (read_delay_store mj sscanf_int jiffies uninit dst
            (fst (read_delay_show src)) count)) = read_delay src
  /\ (dev_write dst <> None ->
      write_delay
        (fst (write_delay_store mj sscanf_int jiffies uninit dst
                (fst (write_delay_show src)) count)) = write_delay src)
  /\ snd (read_delay_show src)
     = Z.of_nat (String.length (sprintf_u (read_delay src))) + 1.
Proof.
  intros Hr Hw. split; [|split].
  - unfold read_delay_store, read_delay_show.
    pose proof (store_delay_value mj sscanf_int jiffies uninit dst
                  read_delay_ptr (fst (show_delay (read_delay src))) count)
      as [H _].
    cbn [load_delay] in H. rewrite H, sscanf_int_show_delay by exact Hr.
    rewrite u32_s32. now apply u32_small.
  - intros Hdev. unfold write_delay_store, write_delay_show.
    destruct (dev_write dst); [|contradiction].
    pose proof (store_delay_value mj sscanf_int jiffies uninit dst
                  write_delay_ptr (fst (show_delay (write_delay src))) count)
      as [H _].
    cbn [load_delay] in H. rewrite H, sscanf_int_show_delay by exact Hw.
    rewrite u32_s32. now apply u32_small.
  - unfold read_delay_show, show_delay. cbn [snd].
    rewrite length_append. cbn [String.length]. lia.
Qed.

Lemma show_store_round_trip_witness :
  fst (read_delay_show (ti_private ti_single))
  = String "1" (String "0" (String "010" EmptyString))
  /\ read_delay
       (fst (read_delay_store msecs_to_jiffies_hz1000 sscanf_int 0 0
               (ti_private ti_dual)
               (fst (read_delay_show (ti_private ti_single))) 3)) = 10.
Proof.
  split; [reflexivity|].
  refine (proj1 (show_store_round_trip msecs_to_jiffies_hz1000 0 0
                   (ti_private ti_single) (ti_private ti_dual) 3 _ _)).
  - vm_compute. split; [discriminate | reflexivity].
  - vm_compute. split; [discriminate | reflexivity].
Defined.

(** ** The status text *)

Lemma take_chars_length (n : nat) (s : string) :
  String.length (take_chars n s) = Nat.min n (String.length s).
Proof.
  revert s. induction n as [|n IH]; intros [|c s]; simpl; try reflexivity.
  now rewrite IH.
Qed.

Lemma take_chars_all (n : nat) (s : string) :
  (String.length s <= n)%nat -> take_chars n s = s.
Proof.
  revert s. induction n as [|n IH]; intros [|c s] H; simpl in *;
    try reflexivity; try lia.
  rewrite IH; [reflexivity | lia].
Qed.

Lemma take_chars_append (n : nat) (a b : string) :
  take_chars n (a ++ b)
  = (take_chars n a ++ take_chars (n - String.length a) b)%string.
Proof.
  revert n. induction a as [|c a IH]; intros n; simpl.
  - rewrite Nat.sub_0_r. now destruct n.
  - destruct n as [|n]; simpl; [reflexivity|]. now rewrite IH.
Qed.

Lemma take_chars_min (n : nat) (s : string) :
  take_chars (Nat.min (String.length s) n) s = take_chars n s.
Proof.
  destruct (Nat.le_ge_cases (String.length s) n) as [H | H].
  - rewrite Nat.min_l by exact H.
    rewrite !take_chars_all; [reflexivity | exact H | lia].
  - now rewrite Nat.min_r by exact H.
Qed.

(** One [DMEMIT] on a buffer that holds the first [maxlen - 1] characters
    of a text, with [sz] their number, leaves the first [maxlen - 1]
    characters of the longer text. *)
Lemma DMEMIT_take (maxlen : Z) (acc text : string) :
  0 <= maxlen ->
  let m := Z.to_nat (maxlen - 1) in
  DMEMIT maxlen
    (take_chars m acc, Z.of_nat (String.length (take_chars m acc))) text
  = (take_chars m (acc ++ text),
     Z.of_nat (String.length (take_chars m (acc ++ text)))).
Proof.
  intros Hm m. unfold DMEMIT.
  rewrite take_chars_length.
  destruct (Z.leb_spec maxlen
              (Z.of_nat (Nat.min m (String.length acc)))) as [Hfull | Hroom].
  - assert (m = 0%nat) by (unfold m in *; lia). 
    replace m with 0%nat. reflexivity.
  - assert (Hn : Z.to_nat
                   (Z.min (Z.of_nat (String.length text))
                      (maxlen - Z.of_nat (Nat.min m (String.length acc)) - 1))
                 = Nat.min (String.length text) (m - String.length acc)).
    { unfold m in *. lia. }
    rewrite Hn, take_chars_min, <- take_chars_append.
    f_equal. rewrite !take_chars_length, length_append.
    unfold m in *. lia.
Qed.

Lemma delay_status_take (ti : dm_target) (type : status_type_t)
    (maxlen : Z) :
  0 <= maxlen ->
  let dc := ti_private ti in
  delay_status ti type maxlen
  = take_chars (Z.to_nat (maxlen - 1))
      match type with
      | STATUSTYPE_INFO =>
          String.concat " " [sprintf_u (reads dc); sprintf_u (writes dc)]
      | STATUSTYPE_TABLE =>
          String.concat " "
            ([name (dev_read dc); sprintf_llu (start_read dc);
              sprintf_u (read_delay dc)]
             ++ match dev_write dc with
                | Some dw =>
                    [name dw; sprintf_llu (start_write dc);
                     sprintf_u (write_delay dc)]
                | None => []
                end)
      end.
Proof.
  intros Hm dc.
  assert (H0 : forall text,
             DMEMIT maxlen (EmptyString, 0) text
             = (take_chars (Z.to_nat (maxlen - 1)) text,
                Z.of_nat (String.length
                            (take_chars (Z.to_nat (maxlen - 1)) text)))).
  { intros text.
    pose proof (DMEMIT_take maxlen EmptyString text Hm) as H.
    cbv zeta in H. cbn [append] in H.
    replace (take_chars (Z.to_nat (maxlen - 1)) EmptyString)
      with EmptyString in H by now destruct (Z.to_nat (maxlen - 1)).
    exact H. }
  unfold delay_status. fold dc. destruct type.
  - rewrite H0. reflexivity.
  - rewrite H0. destruct (dev_write dc) as [dw|].
    + pose proof (DMEMIT_take maxlen) as H. cbv zeta in H.
      rewrite H by exact Hm. cbn [fst]. f_equal.
      cbn [app String.concat]. rewrite !append_assoc. reflexivity.
    + reflexivity.
Qed.

(** X10: for every buffer length, [delay_status] leaves in [result] the
    first [maxlen - 1] characters of the status line: the two counters for
    [STATUSTYPE_INFO]; for [STATUSTYPE_TABLE] the name of the read device,
    its offset and the read delay, followed, on a target with a write
    device, by the name, offset and delay of that device, the fields
    separated by single spaces.  The text is never longer than
    [maxlen - 1]. *)
Theorem delay_status_text (ti : dm_target) (type : status_type_t)
    (maxlen : Z) :
  0 <= maxlen ->
  let dc := ti_private ti in
  let line :=
    match type with
    | STATUSTYPE_INFO =>
        String.concat " " [sprintf_u (reads dc); sprintf_u (writes dc)]
    | STATUSTYPE_TABLE =>
        String.concat " "
          ([name (dev_read dc); sprintf_llu (start_read dc);
            sprintf_u (read_delay dc)]
           ++ match dev_write dc with
              | Some dw =>
                  [name dw; sprintf_llu (start_write dc);
                   sprintf_u (write_delay dc)]
              | None => []
              end)
    end in
  delay_status ti type maxlen = take_chars (Z.to_nat (maxlen - 1)) line
  /\ Z.of_nat (String.length (delay_status ti type maxlen))
     <= Z.max 0 (maxlen - 1).
Proof.
  intros Hm dc line.
  pose proof (delay_status_take ti type maxlen Hm) as Heq.
  cbv zeta in Heq. fold dc in Heq. fold line in Heq.
  split; [exact Heq|].
  rewrite Heq, take_chars_length. lia.
Qed.

Lemma delay_status_text_witness :
  delay_status ti_dual STATUSTYPE_TABLE 4096
  = "7:0 0 0 7:1 100 200"%string
  /\ delay_status ti_dual STATUSTYPE_TABLE 6 = "7:0 0"%string.
Proof.
  split.
  - refine (proj1 (delay_status_text ti_dual STATUSTYPE_TABLE 4096 _)).
    discriminate.
  - refine (proj1 (delay_status_text ti_dual STATUSTYPE_TABLE 6 _)).
    discriminate.
Defined.

(** X11: on a target reached by any run of a constructed target, with fewer
    than [2^32] entries queued, the [STATUSTYPE_INFO] line shows the number
    of queued reads and the number of queued writes. *)
Theorem delay_status_info_counts_queue (mj : Z -> Z)
    (sc : string -> option Z) (raw : delay_c) (dev : dm_dev)
    (start delay : Z) (w : option (dm_dev * Z * Z)) (first : Z)
    (evs : list event) (ti : dm_target) (maxlen : Z) :
  run mj sc evs
    {| ti_begin := first; ti_private := delay_ctr raw dev start delay w |}
  = Some ti ->
  Z.of_nat (List.length (delayed_bios (ti_private ti))) < 2 ^ 32 ->
  0 <= maxlen ->
  delay_status ti STATUSTYPE_INFO maxlen
  = take_chars (Z.to_nat (maxlen - 1))
      (sprintf_u (queue_count READ (delayed_bios (ti_private ti)))
       ++ " "
       ++ sprintf_u (queue_count WRITE (delayed_bios (ti_private ti))))%string.
Proof.
  intros Hrun Hlen Hm.
  assert (H0 : counters_ok (delay_ctr raw dev start delay w))
    by (split; reflexivity).
  destruct (run_counters mj sc evs
              {| ti_begin := first;
                 ti_private := delay_ctr raw dev start delay w |} ti H0 Hrun)
    as [Hr Hw].
  pose proof (queue_count_bounds READ (delayed_bios (ti_private ti))).
  pose proof (queue_count_bounds WRITE (delayed_bios (ti_private ti))).
  rewrite u32_small in Hr, Hw by lia.
  rewrite (delay_status_take ti STATUSTYPE_INFO maxlen Hm).
  rewrite Hr, Hw. reflexivity.
Qed.

Lemma delay_status_info_counts_queue_witness :
  delay_status ti_after_flush STATUSTYPE_INFO 4096 = "1 0"%string.
Proof.
  refine (delay_status_info_counts_queue msecs_to_jiffies_hz1000 sscanf_int
            raw_context dev_a 0 10 None 0 two_reads_then_flush ti_after_flush
            4096 _ _ _).
  - vm_compute. reflexivity.
  - vm_compute. reflexivity.
  - discriminate.
Defined.

(** ** The constructor and the destructor *)




Lemma init_dev_kobject_zero (env : ctr_env) (dc : delay_c) (l : list res_event) :
  init_dev_kobject env dc = (0, l) ->
  env_kobject_create_and_add env (name (dev_read dc)) = true
  /\ env_sysfs_create_group env = 0.
Proof.
  unfold init_dev_kobject.
  destruct (env_kobject_create_and_add env (name (dev_read dc)));
    [|discriminate].
  destruct (Z.eqb_spec (env_sysfs_create_group env) 0) as [E | E];
    cbn [negb]; intros H; inversion H; [now split | congruence].
Qed.

Lemma init_dev_kobject_ok (env : ctr_env) (dc : delay_c) :
  env_kobject_create_and_add env (name (dev_read dc)) = true ->
  env_sysfs_create_group env = 0 ->
  init_dev_kobject env dc
  = (0, [acquire (res_kobject (name (dev_read dc)))]).
Proof. intros H1 H2. unfold init_dev_kobject. now rewrite H1, H2. Qed.

Lemma argv_shape (argv : list string) :
  (exists a b c, argv = [a; b; c])
  \/ (exists a b c d e f, argv = [a; b; c; d; e; f])
  \/ (Z.of_nat (List.length argv) <> 3 /\ Z.of_nat (List.length argv) <> 6).
Proof.
  destruct argv as [|a0 [|a1 [|a2 [|a3 [|a4 [|a5 [|a6 rest]]]]]]];
    try (right; right; simpl; split; discriminate).
  - left. now exists a0, a1, a2.
  - right. left. now exists a0, a1, a2, a3, a4, a5.
  - right. right. cbn [List.length]. lia.
Qed.

Lemma delay_ctr_zero_inv (scan_llu_c scan_u_c : string -> option Z)
    (env : ctr_env) (argv : list string) :
  ctr_ret (Ctr.delay_ctr scan_llu_c scan_u_c env argv) = 0 ->
  exists raw path s d rest start delay dev w,
    argv = path :: s :: d :: rest
    /\ env_kmalloc env = Some raw
    /\ scan_llu_c s = Some start
    /\ scan_u_c d = Some delay
    /\ env_get_device env path = (0, dev)
    /\ write_args scan_llu_c scan_u_c env rest w
    /\ env_alloc_workqueue env = true
    /\ env_kobject_create_and_add env (name dev) = true
    /\ env_sysfs_create_group env = 0
    /\ ctr_private (Ctr.delay_ctr scan_llu_c scan_u_c env argv)
       = Some (delay_ctr raw dev start delay w).
Proof.
  destruct (argv_shape argv)
      as [(a & b & c & ->) | [(a & b & c & d & e & f & ->) | [H3 H6]]].
    + unfold Ctr.delay_ctr, Ctr.out, Ctr.bad_sysfs, Ctr.bad_queue,
        Ctr.bad_dev_read, Ctr.bad.
      ctr_cases; simpl; intros Hret; try discriminate Hret;
        try (exfalso; lia).
      match goal with
      | H : negb (?z =? 0) = false |- _ =>
          apply negb_false_iff, Z.eqb_eq in H; subst z
      end.
      match goal with
      | H : negb (?z =? 0) = false |- _ =>
          apply negb_false_iff, Z.eqb_eq in H; subst z
      end.
      match goal with
      | H : init_dev_kobject _ _ = (0, _) |- _ =>
          destruct (init_dev_kobject_zero _ _ _ H) as [Hk Hs]
      end.
      eexists _, a, b, c, [], _, _, _, None.
      repeat (split; [eassumption || reflexivity|]).
      split; [left; split; reflexivity|].
      repeat (split; [eassumption || reflexivity|]).
      reflexivity.
    + unfold Ctr.delay_ctr, Ctr.out, Ctr.bad_sysfs, Ctr.bad_queue,
        Ctr.bad_dev_read, Ctr.bad.
      ctr_cases; simpl; intros Hret; try discriminate Hret;
        try (exfalso; lia).
      repeat match goal with
             | H : negb (?z =? 0) = false |- _ =>
                 apply negb_false_iff, Z.eqb_eq in H; subst z
             end.
      match goal with
      | H : init_dev_kobject _ _ = (0, _) |- _ =>
          destruct (init_dev_kobject_zero _ _ _ H) as [Hk Hs]
      end.
      eexists _, a, b, c, [d; e; f], _, _, _, (Some (_, _, _)).
      repeat (split; [eassumption || reflexivity|]).
      split.
      { right. eexists d, e, f, _, _, _.
        repeat (split; [eassumption || reflexivity|]). reflexivity. }
      repeat (split; [eassumption || reflexivity|]).
      reflexivity.
    + unfold Ctr.delay_ctr.
      destruct (Z.eqb_spec (Z.of_nat (List.length argv)) 3);
        [contradiction|].
      destruct (Z.eqb_spec (Z.of_nat (List.length argv)) 6);
        [contradiction|].
      discriminate.
Qed.

(** X13: [delay_ctr] returns 0 exactly when it is given three or six
    arguments, [kmalloc] gives memory, the offsets and delays are decimal
    numbers with nothing behind them, the devices are found, and the work
    queue, the sysfs object and its attribute group are created; the
    context it then leaves has an empty queue, both counters at zero, the
    timer not pending and [may_delay] set, with the devices, offsets and
    delays of the arguments. *)
Theorem delay_ctr_succeeds_iff (scan_llu_c scan_u_c : string -> option Z)
    (env : ctr_env) (argv : list string) :
  let r := Ctr.delay_ctr scan_llu_c scan_u_c env argv in
  ctr_ret r = 0 <->
  exists raw path s d rest start delay dev w,
    argv = path :: s :: d :: rest
    /\ env_kmalloc env = Some raw
    /\ scan_llu_c s = Some start
    /\ scan_u_c d = Some delay
    /\ env_get_device env path = (0, dev)
    /\ write_args scan_llu_c scan_u_c env rest w
    /\ env_alloc_workqueue env = true
    /\ env_kobject_create_and_add env (name dev) = true
    /\ env_sysfs_create_group env = 0
    /\ ctr_private r = Some (delay_ctr raw dev start delay w).
Proof.
  cbv zeta. split.
  - apply delay_ctr_zero_inv.
  - intros (raw & path & s & d & rest & start & delay & dev & w & -> & Hm
            & Hs & Hd & Hg & Hw & Hq & Hk & Hy & _).
    destruct Hw as [[-> ->] | (pw & sw & dw & startw & delayw & devw & ->
                               & Hsw & Hdw & Hgw & ->)];
      unfold Ctr.delay_ctr, Ctr.out, Ctr.arg; simpl;
      rewrite Hm; simpl; rewrite Hs, Hd, Hg; simpl;
      rewrite ?Hsw, ?Hdw, ?Hgw; simpl; rewrite Hq;
      rewrite init_dev_kobject_ok by assumption; reflexivity.
Qed.

Lemma delay_ctr_built (scan_llu_c scan_u_c : string -> option Z)
    (env : ctr_env) (raw : delay_c) (path s d : string) (rest : list string)
    (start delay : Z) (dev : dm_dev) (w : option (dm_dev * Z * Z)) :
  env_kmalloc env = Some raw ->
  scan_llu_c s = Some start ->
  scan_u_c d = Some delay ->
  env_get_device env path = (0, dev) ->
  write_args scan_llu_c scan_u_c env rest w ->
  env_alloc_workqueue env = true ->
  env_kobject_create_and_add env (name dev) = true ->
  env_sysfs_create_group env = 0 ->
  Ctr.delay_ctr scan_llu_c scan_u_c env (path :: s :: d :: rest)
  = {| ctr_ret := 0; ctr_error := None;
       ctr_private := Some (delay_ctr raw dev start delay w);
       ctr_log :=
         [acquire res_context; acquire (res_device dev)]
         ++ match w with
            | Some (devw, _, _) => [acquire (res_device devw)]
            | None => []
            end
         ++ [acquire res_workqueue; acquire (res_kobject (name dev))] |}.
Proof.
  intros Hm Hs Hd Hg Hw Hq Hk Hy.
  destruct Hw as [[-> ->] | (pw & sw & dw & startw & delayw & devw & ->
                             & Hsw & Hdw & Hgw & ->)];
    unfold Ctr.delay_ctr, Ctr.out, Ctr.arg;
    cbn [List.length Z.of_nat Pos.of_succ_nat Pos.succ Z.eqb Pos.eqb negb
           andb nth];
    rewrite Hm, Hs, Hd, Hg; cbn [Z.eqb negb];
    rewrite ?Hsw, ?Hdw, ?Hgw; cbn [Z.eqb negb]; rewrite Hq;
    rewrite init_dev_kobject_ok by assumption; reflexivity.
Qed.

(** X14: after a [delay_ctr] that returned 0, [delay_dtr] on the context it
    left gives back everything the constructor acquired: over the two calls
    the context, each device, the work queue and the sysfs object are
    released as many times as they were acquired; the constructor alone
    holds the context and the work queue once. *)
Theorem delay_ctr_dtr_balanced (scan_llu_c scan_u_c : string -> option Z)
    (env : ctr_env) (argv : list string) :
  let r := Ctr.delay_ctr scan_llu_c scan_u_c env argv in
  ctr_ret r = 0 ->
  exists dc,
    ctr_private r = Some dc
    /\ (forall x, balance x (ctr_log r ++ delay_dtr dc true) = 0)
    /\ balance res_context (ctr_log r) = 1
    /\ balance res_workqueue (ctr_log r) = 1.
Proof.
  cbv zeta. intros Hret.
  destruct (delay_ctr_zero_inv scan_llu_c scan_u_c env argv Hret)
    as (raw & path & s & d & rest & start & delay & dev & w & -> & Hm & Hs
        & Hd & Hg & Hw & Hq & Hk & Hy & _).
  rewrite (delay_ctr_built scan_llu_c scan_u_c env raw path s d rest start
             delay dev w Hm Hs Hd Hg Hw Hq Hk Hy).
  cbn [ctr_private ctr_log]. eexists. split; [reflexivity|].
  unfold delay_dtr, destroy_dev_kobject.
  destruct w as [[[devw startw] delayw]|];
    cbn [delay_ctr dev_read dev_write app];
    (split; [|split; cbn [balance resource_eqb]; reflexivity]);
    intros x; cbn [balance];
    repeat match goal with
           | |- context [resource_eqb ?a ?b] => destruct (resource_eqb a b)
           end;
    reflexivity.
Qed.

Lemma delay_ctr_dtr_balanced_witness :
  ctr_ret (Ctr.delay_ctr sscanf_llu_c sscanf_u_c env_ok argv_dual) = 0
  /\ exists dc,
       ctr_private (Ctr.delay_ctr sscanf_llu_c sscanf_u_c env_ok argv_dual)
       = Some dc
       /\ (forall x,
             balance x
               (ctr_log (Ctr.delay_ctr sscanf_llu_c sscanf_u_c env_ok
                           argv_dual)
                ++ delay_dtr dc true) = 0)
       /\ balance res_context
            (ctr_log (Ctr.delay_ctr sscanf_llu_c sscanf_u_c env_ok
                        argv_dual)) = 1
       /\ balance res_workqueue
            (ctr_log (Ctr.delay_ctr sscanf_llu_c sscanf_u_c env_ok
                        argv_dual)) = 1.
Proof.
  split; [reflexivity|].
  apply (delay_ctr_dtr_balanced sscanf_llu_c sscanf_u_c env_ok argv_dual).
  reflexivity.
Defined.


Lemma delay_ctr_succeeds_iff_witness :
  ctr_ret (Ctr.delay_ctr sscanf_llu_c sscanf_u_c env_ok argv_dual) = 0.
Proof.
  apply (proj2 (delay_ctr_succeeds_iff sscanf_llu_c sscanf_u_c env_ok
                  argv_dual)).
  exists raw_context, "/dev/a"%string, "0"%string, "0"%string,
    ["/dev/b"; "100"; "200"]%string, 0, 0, dev_a, (Some (dev_b, 100, 200)).
  repeat (split; [reflexivity|]).
  split.
  - right.
    exists "/dev/b"%string, "100"%string, "200"%string, 100, 200, dev_b.
    repeat (split; [reflexivity|]). reflexivity.
  - repeat (split; [reflexivity|]). reflexivity.
Defined.

(** ** From the table line back to a target *)



(** ** Iterating over the devices *)

(** X16: [delay_iterate_devices] returns 0 exactly when the callout returns
    0 on the read device and, on a target with a write device, on the write
    device; it calls the read device first, with its offset, and calls for
    the write device, with the write offset, only when the read device
    returned 0; a non-zero value of the read device is returned as it is. *)
Theorem delay_iterate_devices_reports (ti : dm_target) (len : Z)
    (fn : dm_dev -> Z -> Z -> Z) :
  let dc := ti_private ti in
  let r := delay_iterate_devices ti len fn in
  let first := fn (dev_read dc) (start_read dc) len in
  (snd r = 0 <->
   first = 0
   /\ forall dw, dev_write dc = Some dw -> fn dw (start_write dc) len = 0)
  /\ (first <> 0 ->
      r = ([(dev_read dc, start_read dc, len)], first))
  /\ (first = 0 ->
      fst r
      = (dev_read dc, start_read dc, len)
        :: match dev_write dc with
           | Some dw => [(dw, start_write dc, len)]
           | None => []
           end).
Proof.
  cbv zeta. unfold delay_iterate_devices.
  destruct (Z.eqb_spec (fn (dev_read (ti_private ti))
                          (start_read (ti_private ti)) len) 0) as [E | E];
    cbn [negb].
  - destruct (dev_write (ti_private ti)) as [dw|]; cbn [fst snd].
    + split; [|split; [intros H; contradiction | reflexivity]].
      split.
      * intros H. split; [exact E|]. intros dw' Hdw.
        inversion Hdw; subst dw'. exact H.
      * intros [_ H]. now apply H.
    + split; [|split; [intros H; contradiction | reflexivity]].
      split; [intros _; split; [exact E | discriminate] | intros _; exact E].
  - cbn [fst snd]. split; [|split; [reflexivity | intros H; contradiction]].
    split; [intros H; contradiction | intros [H _]; contradiction].
Qed.

Lemma delay_iterate_devices_reports_witness :
  delay_iterate_devices ti_dual 64 (fun d _ _ => bdev d - 1)
  = ([(dev_a, 0, 64); (dev_b, 100, 64)], 1)
  /\ delay_iterate_devices ti_dual 64 (fun d _ _ => bdev d)
     = ([(dev_a, 0, 64)], 1).
Proof.
  split; [reflexivity|].
  refine (proj1 (proj2 (delay_iterate_devices_reports ti_dual 64
                          (fun d _ _ => bdev d))) _).
  discriminate.
Defined.

(** ** No entry is stranded *)

Lemma filter_all {A} (f : A -> bool) (l : list A) :
  (forall a, In a l -> f a = true) ->
  filter f l = l /\ filter (fun a => negb (f a)) l = [].
Proof.
  induction l as [|a l IH]; intros H; [split; reflexivity|].
  cbn [filter]. rewrite (H a) by now left. cbn [negb].
  destruct IH as [H1 H2]; [intros b Hb; apply H; now right|].
  rewrite H1, H2. split; reflexivity.
Qed.

Lemma flush_delayed_bios_all (j : Z) (dc : delay_c) (fa : Z) :
  (forall d, In d (delayed_bios dc) -> flushes j fa d = true) ->
  snd (flush_delayed_bios j dc fa) = map info_bio (delayed_bios dc)
  /\ delayed_bios (fst (flush_delayed_bios j dc fa)) = []
  /\ delay_timer (fst (flush_delayed_bios j dc fa)) = delay_timer dc
  /\ flush_work (fst (flush_delayed_bios j dc fa)) = flush_work dc.
Proof.
  intros Hall.
  destruct (filter_all (flushes j fa) (delayed_bios dc) Hall) as [Hyes Hno].
  assert (Hst : fs_start_timer (flush_scan j dc fa) = 0).
  { destruct (flush_scan_next_expires j dc fa)
      as [[H0 _] | [_ [Hin _]]]; [exact H0|].
    rewrite flush_scan_list, Hno in Hin. destruct Hin. }
  unfold flush_delayed_bios. cbn [fst snd]. rewrite Hst.
  cbn [Z.eqb negb]. rewrite flush_scan_bios, flush_scan_list, Hyes, Hno.
  repeat split; reflexivity.
Qed.

(** X17: a target reached by any run, with entries queued and no flush work
    outstanding, can always release them: at a time that is not before any
    queued expiry (and within half the range of [jiffies] after the queued
    expiries and the timer), the timer is pending and due, so it fires, and
    the flush work it queues hands every queued bio to
    [generic_make_request], in queue order, and leaves the queue empty with
    no timer pending and no work queued. *)
Theorem queued_bios_can_be_released (mj : Z -> Z) (sc : string -> option Z)
    (raw : delay_c) (dev : dm_dev) (start delay : Z)
    (w : option (dm_dev * Z * Z)) (first : Z) (evs : list event)
    (ti : dm_target) (jiffies : Z) :
  run mj sc evs
    {| ti_begin := first; ti_private := delay_ctr raw dev start delay w |}
  = Some ti ->
  let dc := ti_private ti in
  flush_work dc = false ->
  delayed_bios dc <> [] ->
  (forall d, In d (delayed_bios dc) -> 0 <= jiffies - expires d < 2 ^ 63) ->
  jiffies - timer_expires (delay_timer dc) < 2 ^ 63 ->
  exists ti1 ti2,
    step mj sc (ev_timer jiffies) ti = Some ti1
    /\ step_io mj sc (ev_work jiffies) ti1
       = Some (ti2, [], map info_bio (delayed_bios dc))
    /\ delayed_bios (ti_private ti2) = []
    /\ timer_pending (delay_timer (ti_private ti2)) = false
    /\ flush_work (ti_private ti2) = false.
Proof.
  intros Hrun dc Hfw Hne Hwin Htw.
  assert (Harm : armed_ok dc).
  { apply (run_armed mj sc evs
             {| ti_begin := first;
                ti_private := delay_ctr raw dev start delay w |} ti);
      [|exact Hrun | exact Hfw].
    intros _. split; [intros H; now elim H | discriminate]. }
  destruct Harm as [Hpend Hcov]. specialize (Hpend Hne).
  specialize (Hcov Hpend).
  assert (Hdue : time_after_eq jiffies (timer_expires (delay_timer dc))
                 = true).
  { destruct (delayed_bios dc) as [|d q] eqn:Hq; [now elim Hne|].
    pose proof (Hcov d (or_introl eq_refl)) as Hle.
    pose proof (Hwin d (or_introl eq_refl)) as Hd.
    rewrite time_after_eq_le by lia. apply Z.leb_le. lia. }
  assert (Hall : forall d, In d (delayed_bios dc) ->
                           flushes jiffies 0 d = true).
  { intros d Hd. unfold flushes. cbn [Z.eqb negb orb].
    pose proof (Hwin d Hd). rewrite time_after_eq_le by lia.
    apply Z.leb_le. lia. }
  destruct (flush_delayed_bios_all jiffies
              (set_flush_work (handle_delayed_timer dc) false) 0 Hall)
    as (Hb & Hq & Ht & Hw).
  exists (set_private ti (handle_delayed_timer dc)).
  exists (set_private ti
            (fst (flush_delayed_bios jiffies
                    (set_flush_work (handle_delayed_timer dc) false) 0))).
  split; [|split; [|split; [exact Hq | split]]].
  - unfold step. fold dc. rewrite Hpend, Hdue. reflexivity.
  - unfold step_io, flush_expired_bios.
    cbn [set_private ti_private handle_delayed_timer set_flush_work
           flush_work].
    pose proof Hb as Hb'.
    cbn [set_flush_work handle_delayed_timer] in Hb'.
    destruct (flush_delayed_bios jiffies _ 0) as [dc2 bios] eqn:E.
    cbn [fst snd] in *. rewrite flush_bios_id, Hb'. reflexivity.
  - cbn [set_private ti_private]. rewrite Ht. reflexivity.
  - cbn [set_private ti_private]. rewrite Hw. reflexivity.
Qed.

Lemma queued_bios_can_be_released_witness :
  map expires (delayed_bios (ti_private ti_after_flush)) = [13]
  /\ exists ti1 ti2,
       step msecs_to_jiffies_hz1000 sscanf_int (ev_timer 20) ti_after_flush
       = Some ti1
       /\ step_io msecs_to_jiffies_hz1000 sscanf_int (ev_work 20) ti1
          = Some (ti2, [],
                  map info_bio (delayed_bios (ti_private ti_after_flush)))
       /\ delayed_bios (ti_private ti2) = []
       /\ timer_pending (delay_timer (ti_private ti2)) = false
       /\ flush_work (ti_private ti2) = false.
Proof.
  split; [reflexivity|].
  apply (queued_bios_can_be_released msecs_to_jiffies_hz1000 sscanf_int
           raw_context dev_a 0 10 None 0 two_reads_then_flush ti_after_flush
           20).
  - vm_compute. reflexivity.
  - reflexivity.
  - discriminate.
  - intros d [<- | []]. vm_compute. split; [discriminate | reflexivity].
  - vm_compute. reflexivity.
Defined.
